(** * The admin routes of genx-backend ([src/routes/admin.js])

    A shallow embedding of the nine Express handlers the router mounts behind
    [protect] and [isAdmin], and the properties the specification states
    about them.

    What is the repository's own ([routes/admin.js]) is translated handler by
    handler.  What is not (Mongoose and MongoDB, the two schemas in
    [models/], the JavaScript runtime) is modelled as the least the handlers
    rely on, and says so where it stands. *)

From Stdlib Require Import ZArith Ascii String.
From stdpp Require Import base decidable option list sorting strings pretty.

Local Open Scope string_scope.
Local Open Scope Z_scope.
Local Open Scope list_scope.

(** ** JavaScript values *)

(** What a JSON request body can hold at a property the handlers read.
    Arrays, objects and numbers with a fractional part are left out. *)
Inductive jsval : Type :=
  | VUndefined
  | VNull
  | VBool (b : bool)
  | VNum (z : Z)
  | VStr (s : string).

#[global] Instance jsval_eq_dec : EqDecision jsval.
Proof. solve_decision. Defined.

(** A JavaScript number, as far as the handlers can tell one from another:
    an integer, [NaN] or an infinity.  Integers stand for themselves as long
    as they stay below 2^53 in magnitude; [-0] is not told apart from [0]. *)
Inductive num : Type :=
  | Int (z : Z)
  | NaN
  | Inf (negative : bool).

#[global] Instance num_eq_dec : EqDecision num.
Proof. solve_decision. Defined.

(** [a - b] *)
Definition num_sub (a b : num) : num :=
  match a, b with
  | NaN, _ | _, NaN => NaN
  | Int x, Int y => Int (x - y)
  | Int _, Inf s => Inf (negb s)
  | Inf s, Int _ => Inf s
  | Inf s, Inf t => if Bool.eqb s t then NaN else Inf s
  end.

(** [a * b] *)
Definition num_mul (a b : num) : num :=
  match a, b with
  | NaN, _ | _, NaN => NaN
  | Int x, Int y => Int (x * y)
  | Int x, Inf s | Inf s, Int x =>
      if x =? 0 then NaN else Inf (xorb s (x <? 0))
  | Inf s, Inf t => Inf (xorb s t)
  end.

(** [Math.ceil(a / b)]: the quotient is a fraction in general, its ceiling
    is an integer again, so the two are taken in one step.  The double
    quotient has the same ceiling as the exact one as long as both
    operands are below 2^26. *)
Definition num_ceil_div (a b : num) : num :=
  match a, b with
  | NaN, _ | _, NaN => NaN
  | Int x, Int y =>
      if y =? 0 then (if x =? 0 then NaN else Inf (x <? 0))
      else Int (- ((- x) / y))
  | Int _, Inf _ => Int 0
  | Inf s, Int y => Inf (xorb s (y <? 0))
  | Inf _, Inf _ => NaN
  end.

(** How [JSON.stringify] writes a number: [NaN] and the infinities come out
    as [null]. *)
Definition json_number (n : num) : option Z :=
  match n with
  | Int z => Some z
  | NaN | Inf _ => None
  end.

(** ** String to number: [Number(s)] and [parseInt(s)]

    Both are the runtime's.  They are written out for ASCII strings whose
    value is an integer of at most 2^53, an infinity or [NaN]; on any other
    string (a fraction, an exponent, a longer digit string, a byte above 127)
    they answer [None]: the model does not say. *)

Definition is_ws (c : ascii) : bool :=
  let n := nat_of_ascii c in
  ((9 <=? n) && (n <=? 13))%nat || (n =? 32)%nat.

Definition is_ascii7 (c : ascii) : bool := (nat_of_ascii c <? 128)%nat.

(** The value of [c] as a digit, up to [z] and [Z] for 35. *)
Definition digit_val (c : ascii) : option Z :=
  let n := Z.of_nat (nat_of_ascii c) in
  if (48 <=? n) && (n <=? 57) then Some (n - 48)
  else if (97 <=? n) && (n <=? 122) then Some (n - 87)
  else if (65 <=? n) && (n <=? 90) then Some (n - 55)
  else None.

Definition digit_in (radix : Z) (c : ascii) : option Z :=
  match digit_val c with
  | Some d => if d <? radix then Some d else None
  | None => None
  end.

(** The longest prefix of [cs] made of digits of [radix]: how many there
    were, and their value read left to right from [acc]. *)
Fixpoint read_digits (radix : Z) (acc : Z) (cs : list ascii) : nat * Z :=
  match cs with
  | [] => (O, acc)
  | c :: cs' =>
      match digit_in radix c with
      | Some d =>
          let '(n, v) := read_digits radix (acc * radix + d) cs' in (S n, v)
      | None => (O, acc)
      end
  end.

Fixpoint drop_ws (cs : list ascii) : list ascii :=
  match cs with
  | c :: cs' => if is_ws c then drop_ws cs' else cs
  | [] => []
  end.

Definition trim_ws (cs : list ascii) : list ascii :=
  reverse (drop_ws (reverse (drop_ws cs))).

Definition MAX_SAFE : Z := 2 ^ 53.

Definition signed (negative : bool) (v : Z) : option num :=
  if v <=? MAX_SAFE then Some (Int (if negative then - v else v)) else None.

(** [cs] is nothing but digits of [radix], at least one. *)
Definition all_digits (radix : Z) (cs : list ascii) : option Z :=
  let '(n, v) := read_digits radix 0 cs in
  if (0 <? n)%nat && (n =? length cs)%nat then Some v else None.

Definition has_radix_prefix (lower upper : ascii) (cs : list ascii)
  : option (list ascii) :=
  match cs with
  | "0"%char :: c :: rest =>
      if bool_decide (c = lower) || bool_decide (c = upper)
      then Some rest else None
  | _ => None
  end.

Definition strip_sign (cs : list ascii) : bool * list ascii :=
  match cs with
  | "-"%char :: rest => (true, rest)
  | "+"%char :: rest => (false, rest)
  | _ => (false, cs)
  end.

Definition may_be_fraction (cs : list ascii) : bool :=
  existsb (fun c => bool_decide (c = "."%char) || bool_decide (c = "e"%char)
                    || bool_decide (c = "E"%char)) cs.

(** A non-decimal literal: [0x1f], [0o17], [0b101]; no sign allowed. *)
Definition non_decimal (cs : list ascii) : option (option num) :=
  let lit (radix : Z) (rest : list ascii) :=
    Some (match all_digits radix rest with
          | Some v => signed false v
          | None => Some NaN
          end) in
  match has_radix_prefix "x" "X" cs with
  | Some rest => lit 16 rest
  | None =>
  match has_radix_prefix "o" "O" cs with
  | Some rest => lit 8 rest
  | None =>
  match has_radix_prefix "b" "B" cs with
  | Some rest => lit 2 rest
  | None => None
  end end end.

(** [Number(s)], the conversion the operators [-], [*] and [/] apply to a
    string operand. *)
Definition ToNumber_str (s : string) : option num :=
  let cs := list_ascii_of_string s in
  if negb (forallb is_ascii7 cs) then None else
  let cs := trim_ws cs in
  match cs with
  | [] => Some (Int 0)
  | _ =>
    match non_decimal cs with
    | Some r => r
    | None =>
        let '(neg, rest) := strip_sign cs in
        if bool_decide (rest = list_ascii_of_string "Infinity")
        then Some (Inf neg)
        else match all_digits 10 rest with
             | Some v => signed neg v
             | None => if may_be_fraction rest then None else Some NaN
             end
    end
  end.

(** [parseInt(s)] with no radix argument. *)
Definition parseInt_str (s : string) : option num :=
  let cs := list_ascii_of_string s in
  if negb (forallb is_ascii7 cs) then None else
  let '(neg, cs) := strip_sign (drop_ws cs) in
  let '(radix, cs) :=
    match has_radix_prefix "x" "X" cs with
    | Some rest => (16, rest)
    | None => (10, cs)
    end in
  let '(n, v) := read_digits radix 0 cs in
  if (n =? 0)%nat then Some NaN else signed neg v.

(** [String(v)]; for a number, the decimal digits JavaScript writes below
    10^21. *)
Definition ToString (v : jsval) : string :=
  match v with
  | VUndefined => "undefined"
  | VNull => "null"
  | VBool true => "true"
  | VBool false => "false"
  | VNum z => pretty z
  | VStr s => s
  end.

(** [Number(v)] *)
Definition ToNumber (v : jsval) : option num :=
  match v with
  | VUndefined => Some NaN
  | VNull => Some (Int 0)
  | VBool b => Some (Int (if b then 1 else 0))
  | VNum z => Some (Int z)
  | VStr s => ToNumber_str s
  end.

(** [parseInt(v)]: the argument is turned into a string first. *)
Definition parseInt (v : jsval) : option num := parseInt_str (ToString v).

(** [if (v)] on a string or a missing property. *)
Definition truthy_str (v : option string) : bool :=
  match v with
  | Some s => negb (bool_decide (s = ""))
  | None => false
  end.

(** Every array is truthy, the empty one too. *)
Definition truthy_array {A : Type} (l : list A) : bool := true.


(** ** Dates

    [new Date(v)] as a time value in milliseconds, [None] for an invalid
    date.  Parsing a date string is the runtime's business and depends on the
    engine for anything but the ISO format, so the parser is handed in. *)

Definition TIME_CLIP : Z := 8640000000000000.

Definition new_Date (Date_parse : string -> option Z) (v : jsval) : option Z :=
  match v with
  | VUndefined => None
  | VNull => Some 0
  | VBool b => Some (if b then 1 else 0)
  | VNum z => if Z.abs z <=? TIME_CLIP then Some z else None
  | VStr s => Date_parse s
  end.

(** [a > b] on two [Date] objects: both become their time value, and a
    comparison with [NaN] is false. *)
Definition date_gt (a b : option Z) : bool :=
  match a, b with
  | Some x, Some y => y <? x
  | _, _ => false
  end.

(** ** Regular expressions: [{ $regex: pattern, $options: 'i' }]

    MongoDB hands the pattern to PCRE.  The model covers patterns made of
    ordinary printable characters, [.] and backslash-escaped punctuation,
    matched against printable ASCII text; any other pattern or text is
    outside it. *)

Inductive atom : Type :=
  | Lit (c : ascii)
  | AnyChar.

Definition is_printable (c : ascii) : bool :=
  let n := nat_of_ascii c in ((32 <=? n) && (n <=? 126))%nat.

Definition is_alnum (c : ascii) : bool :=
  match digit_val c with Some _ => true | None => false end.

(** The characters PCRE gives a meaning of their own outside a class. *)
Definition is_meta (c : ascii) : bool :=
  bool_decide (c ∈ list_ascii_of_string "\^$.|?*+()[]{}").

Fixpoint parse_regex (cs : list ascii) : option (list atom) :=
  match cs with
  | [] => Some []
  | "."%char :: rest => cons AnyChar <$> parse_regex rest
  | "\"%char :: c :: rest =>
      if is_printable c && negb (is_alnum c)
      then cons (Lit c) <$> parse_regex rest else None
  | c :: rest =>
      if is_printable c && negb (is_meta c)
      then cons (Lit c) <$> parse_regex rest else None
  end.

Definition lower (c : ascii) : ascii :=
  let n := nat_of_ascii c in
  if ((65 <=? n) && (n <=? 90))%nat then ascii_of_nat (n + 32) else c.

Definition atom_matches (caseless : bool) (a : atom) (c : ascii) : bool :=
  match a with
  | Lit l => if caseless then bool_decide (lower l = lower c)
             else bool_decide (l = c)
  | AnyChar => true
  end.

(** The atoms match a prefix of the text. *)
Fixpoint match_here (caseless : bool) (p : list atom) (cs : list ascii) : bool :=
  match p, cs with
  | [], _ => true
  | _ :: _, [] => false
  | a :: p', c :: cs' => atom_matches caseless a c && match_here caseless p' cs'
  end.

(** An unanchored pattern matches if it matches from some position on. *)
Fixpoint match_anywhere (caseless : bool) (p : list atom) (cs : list ascii) : bool :=
  match_here caseless p cs ||
  match cs with
  | [] => false
  | _ :: cs' => match_anywhere caseless p cs'
  end.

Definition regex_options (options : string) : option bool :=
  if bool_decide (options = "i") then Some true
  else if bool_decide (options = "") then Some false
  else None.

(** Does the text match?  [None]: the pattern, the options or the text are
    outside the model. *)
Definition regex_test (pattern options text : string) : option bool :=
  caseless ← regex_options options;
  p ← parse_regex (list_ascii_of_string pattern);
  let cs := list_ascii_of_string text in
  if forallb is_printable cs then Some (match_anywhere caseless p cs) else None.


(** ** Documents *)

(** Modelled from the spec: the Event schema, [models/Event.js], is not
    among the sources.  An entry of an event's [registrations] array:
    section 3 and the glossary give it a reference to a user by id "plus
    event-specific metadata", which is kept as one opaque value. *)
Record registration : Type := {
  r_user : string;
  r_meta : jsval;
}.

(** Modelled from the spec: the Event schema, [models/Event.js], is not
    among the sources.  Section 3 lists the identity, title, description,
    date "(calendar date+time)", venue, status and the ordered collection
    of registrations; [time] is the fifth property the handlers write.  The
    [date] path holds an instant, or nothing.

    The record is an event with its [registrations] property of type [R]:
    the array of registrations in the store, the array with users filled
    in after [populate], a bare number in the answer of [GET /events]. *)
Record event_of (R : Type) : Type := {
  e_id : string;
  e_title : jsval;
  e_description : jsval;
  e_date : option Z;
  e_time : jsval;
  e_venue : jsval;
  e_status : string;
  e_registrations : R;
}.
Arguments e_id {R} _.
Arguments e_title {R} _.
Arguments e_description {R} _.
Arguments e_date {R} _.
Arguments e_time {R} _.
Arguments e_venue {R} _.
Arguments e_status {R} _.
Arguments e_registrations {R} _.

Abbreviation event := (event_of (list registration)).

(** [{ ...e, registrations: r }] *)
Definition with_registrations {R S : Type} (e : event_of R) (r : S) : event_of S :=
  {| e_id := e_id e; e_title := e_title e; e_description := e_description e;
     e_date := e_date e; e_time := e_time e; e_venue := e_venue e;
     e_status := e_status e; e_registrations := r |}.

(** Modelled from the spec: the User schema, [models/User.js], is not among
    the sources.  Section 3 lists the identity, name, email,
    registration_no, role, password and the profile fields branch, semester
    and mobile; the listing is sorted on [createdAt].  [u_password] is
    [None] once a projection has dropped the field. *)
Record user : Type := {
  u_id : string;
  u_name : string;
  u_email : string;
  u_registration_no : string;
  u_role : string;
  u_password : option string;
  u_branch : string;
  u_semester : string;
  u_mobile : string;
  u_createdAt : Z;
}.

(** What [populate] puts in place of a [registrations.user] reference with
    [select: 'name email registration_no branch semester mobile role']. *)
Record populated_user : Type := {
  p_id : string;
  p_name : string;
  p_email : string;
  p_registration_no : string;
  p_branch : string;
  p_semester : string;
  p_mobile : string;
  p_role : string;
}.

(** A registration after [populate]; [null] where the user is gone. *)
Record populated_registration : Type := {
  pr_user : option populated_user;
  pr_meta : jsval;
}.

(** An item of [GET /events/all]: the populated event and its
    [registrationCount]. *)
Record event_all : Type := {
  ea_event : event_of (list populated_registration);
  ea_registrationCount : nat;
}.

#[global] Instance registration_eq_dec : EqDecision registration.
Proof. solve_decision. Defined.
#[global] Instance event_of_eq_dec `{EqDecision R} : EqDecision (event_of R).
Proof. solve_decision. Defined.
#[global] Instance user_eq_dec : EqDecision user.
Proof. solve_decision. Defined.

(** ** The store and the world around a handler *)

Record db : Type := {
  events : list event;
  users : list user;
}.

(** What happens around one awaited store call: other requests may have
    written to the store by the time the call lands ([other]), time has
    passed ([elapsed]), and the call may fail ([fault]: the driver's error
    message; a lost connection, a value the schema does not cast, a failed
    validator). *)
Record tick : Type := {
  fault : option string;
  other : db -> db;
  elapsed : Z;
}.

(** Everything outside the handler.  [pending] schedules the ticks of the
    store calls to come, first call first; once it is used up, calls land
    at once, on the store as it is, and succeed.  [oids] is the supply of
    generated ObjectIds.  [Date_parse] is the runtime's [Date.parse].
    [omitUndefined] says whether this Mongoose drops an [undefined] property
    from an update or writes [null] for it. *)
Record world : Type := {
  store : db;
  clock : Z;
  pending : list tick;
  oids : nat -> string;
  oid_next : nat;
  Date_parse : string -> option Z;
  omitUndefined : bool;
}.

Definition set_store (d : db) (w : world) : world :=
  {| store := d; clock := clock w; pending := pending w; oids := oids w;
     oid_next := oid_next w; Date_parse := Date_parse w;
     omitUndefined := omitUndefined w |}.

(** The world after the next tick has happened. *)
Definition pass (t : tick) (rest : list tick) (w : world) : world :=
  {| store := other t (store w); clock := clock w + elapsed t; pending := rest;
     oids := oids w; oid_next := oid_next w; Date_parse := Date_parse w;
     omitUndefined := omitUndefined w |}.

(** ** Promises

    How an awaited call ends: it resolves, it rejects, or the model does
    not say. *)
Inductive outcome (A : Type) : Type :=
  | Resolved (a : A)
  | Rejected (err : string)
  | Unmodelled.
Arguments Resolved {A} a.
Arguments Rejected {A} err.
Arguments Unmodelled {A}.

(** An [async] computation. *)
Definition M (A : Type) : Type := world -> outcome A * world.

Definition ret {A : Type} (a : A) : M A := fun w => (Resolved a, w).

Definition bind {A B : Type} (m : M A) (k : A -> M B) : M B :=
  fun w =>
    match m w with
    | (Resolved a, w') => k a w'
    | (Rejected err, w') => (Rejected err, w')
    | (Unmodelled, w') => (Unmodelled, w')
    end.

Notation "'let*' x ':=' m 'in' k" := (bind m (fun x => k))
  (at level 10, x name, m at level 100, k at level 200).

(** [try { m } catch (err) { handler err }] *)
Definition try_catch {A : Type} (m : M A) (handler : string -> M A) : M A :=
  fun w =>
    match m w with
    | (Rejected err, w') => handler err w'
    | r => r
    end.

(** A conversion of the runtime the model may have no answer for. *)
Definition known {A : Type} (o : option A) : M A :=
  fun w => match o with Some a => (Resolved a, w) | None => (Unmodelled, w) end.

(** The failure scheduled for the next store call, if any. *)
Definition next_fault (w : world) : option string :=
  match pending w with
  | t :: _ => fault t
  | [] => None
  end.

(** The world as the next store call finds it. *)
Definition arrive (w : world) : world :=
  match pending w with
  | t :: rest => pass t rest w
  | [] => w
  end.

(** [await op]: the next tick happens, then the store call [op] runs on the
    store as the tick left it.  [op] gives its result and the store it
    leaves behind. *)
Definition await {A : Type} (op : db -> outcome A * db) : M A :=
  fun w =>
    let w1 := arrive w in
    match next_fault w with
    | Some err => (Rejected err, w1)
    | None => let '(r, d) := op (store w1) in (r, set_store d w1)
    end.

(** The world after [k] store calls that only read. *)
Fixpoint arrive_n (k : nat) (w : world) : world :=
  match k with
  | O => w
  | S k' => arrive_n k' (arrive w)
  end.

(** The store as call number [k] (from 0) of a handler finds it, when the
    calls before it only read; and the failure scheduled for that call. *)
Definition seen (w : world) (k : nat) : db := store (arrive_n (S k) w).
Definition fault_at (w : world) (k : nat) : option string :=
  next_fault (arrive_n k w).

(** [new Date()] *)
Definition now : M (option Z) := fun w => (Resolved (Some (clock w)), w).

(** The world after an ObjectId has been taken from the supply. *)
Definition bump_oid (w : world) : world :=
  {| store := store w; clock := clock w; pending := pending w;
     oids := oids w; oid_next := S (oid_next w);
     Date_parse := Date_parse w; omitUndefined := omitUndefined w |}.

(** A freshly generated ObjectId. *)
Definition new_ObjectId : M string :=
  fun w => (Resolved (oids w (oid_next w)), bump_oid w).

Definition ask {A : Type} (f : world -> A) : M A := fun w => (Resolved (f w), w).

(** [await Promise.all(ps)].  The callbacks of [events.map] each run up to
    their [await] in list order, so the calls are issued in that order; the
    model lets them land in that order too.  A rejection rejects the whole:
    the calls behind it are reads, what becomes of them changes nothing. *)
Fixpoint Promise_all {A : Type} (ps : list (M A)) : M (list A) :=
  match ps with
  | [] => ret []
  | p :: ps' =>
      let* a := p in
      let* rest := Promise_all ps' in
      ret (a :: rest)
  end.

(** ** Mongoose queries *)

(** Sort order of [{ date: -1 }] and [{ createdAt: -1 }]: descending, a
    missing value last. *)
Definition instant_le (a b : option Z) : Prop :=
  match a, b with
  | None, _ => True
  | Some _, None => False
  | Some x, Some y => x <= y
  end.

#[global] Instance instant_le_dec a b : Decision (instant_le a b).
Proof. destruct a, b; simpl; apply _. Defined.

Definition date_desc {R : Type} (a b : event_of R) : Prop :=
  instant_le (e_date b) (e_date a).

Definition createdAt_desc (a b : user) : Prop :=
  u_createdAt b <= u_createdAt a.

#[global] Instance date_desc_dec {R : Type} (a b : event_of R) : Decision (date_desc a b).
Proof. unfold date_desc. apply _. Defined.

#[global] Instance createdAt_desc_dec a b : Decision (createdAt_desc a b).
Proof. unfold createdAt_desc. apply _. Defined.

(** The first element of [l] that satisfies [P] is replaced by its image
    under [f]; the image is returned with the new list. *)
Fixpoint update_first {A : Type} (P : A -> bool) (f : A -> A) (l : list A)
  : option A * list A :=
  match l with
  | [] => (None, [])
  | x :: l' =>
      if P x then (Some (f x), f x :: l')
      else let '(r, l'') := update_first P f l' in (r, x :: l'')
  end.

(** The first element of [l] that satisfies [P] is taken out and
    returned. *)
Fixpoint delete_first {A : Type} (P : A -> bool) (l : list A)
  : option A * list A :=
  match l with
  | [] => (None, [])
  | x :: l' =>
      if P x then (Some x, l')
      else let '(r, l'') := delete_first P l' in (r, x :: l'')
  end.

(** [.select('-password')] *)
Definition select_minus_password (u : user) : user :=
  {| u_id := u_id u; u_name := u_name u; u_email := u_email u;
     u_registration_no := u_registration_no u; u_role := u_role u;
     u_password := None; u_branch := u_branch u; u_semester := u_semester u;
     u_mobile := u_mobile u; u_createdAt := u_createdAt u |}.

(** [{ role }] applied as an update. *)
Definition set_role (role : string) (u : user) : user :=
  {| u_id := u_id u; u_name := u_name u; u_email := u_email u;
     u_registration_no := u_registration_no u; u_role := role;
     u_password := u_password u; u_branch := u_branch u;
     u_semester := u_semester u; u_mobile := u_mobile u;
     u_createdAt := u_createdAt u |}.

(** The paths of a user a filter can name. *)
Inductive user_path : Type := P_name | P_email | P_registration_no.

Definition get_path (p : user_path) (u : user) : string :=
  match p with
  | P_name => u_name u
  | P_email => u_email u
  | P_registration_no => u_registration_no u
  end.

(** [{ path: { $regex: pattern, $options: options } }] *)
Record clause : Type := {
  c_path : user_path;
  c_regex : string;
  c_options : string;
}.

(** The filter object: [{}] or [{ $or: [clauses] }]. *)
Record query : Type := { q_or : option (list clause) }.

Definition clause_matches (u : user) (c : clause) : option bool :=
  regex_test (c_regex c) (c_options c) (get_path (c_path c) u).

(** A document passes [$or] when it passes one of the clauses. *)
Fixpoint or_matches (u : user) (cs : list clause) : option bool :=
  match cs with
  | [] => Some false
  | c :: cs' =>
      match clause_matches u c, or_matches u cs' with
      | Some b, Some rest => Some (b || rest)
      | _, _ => None
      end
  end.

Definition matches (q : query) (u : user) : option bool :=
  match q_or q with
  | None => Some true
  | Some cs => or_matches u cs
  end.

(** The documents of [us] that pass [q], in their order. *)
Fixpoint select_matching (q : query) (us : list user) : option (list user) :=
  match us with
  | [] => Some []
  | u :: us' =>
      match matches q u, select_matching q us' with
      | Some b, Some rest => Some (if b : bool then u :: rest else rest)
      | _, _ => None
      end
  end.

Module Query.

(** [.skip(n)]: MongoDB refuses a negative skip.  Beyond 2^53 the product
    the handler passes is no longer the integer the model computes. *)
Definition skip {A : Type} (n : num) (l : list A) : outcome (list A) :=
  match n with
  | Int z => if z <? 0 then Rejected "Skip value must be non-negative"
             else if z <=? MAX_SAFE then Resolved (drop (Z.to_nat z) l)
             else Unmodelled
  | NaN | Inf _ => Unmodelled
  end.

(** [.limit(n)]: a limit of 0 is no limit. *)
Definition limit {A : Type} (n : num) (l : list A) : outcome (list A) :=
  match n with
  | Int z => if 0 <? z then Resolved (take (Z.to_nat z) l)
             else if z =? 0 then Resolved l
             else Unmodelled
  | NaN | Inf _ => Unmodelled
  end.

End Query.

(** [populate({ path: 'registrations.user', select: ... })] on one entry. *)
Definition project_user (u : user) : populated_user :=
  {| p_id := u_id u; p_name := u_name u; p_email := u_email u;
     p_registration_no := u_registration_no u; p_branch := u_branch u;
     p_semester := u_semester u; p_mobile := u_mobile u; p_role := u_role u |}.

Definition populate_registration (us : list user) (r : registration)
  : populated_registration :=
  {| pr_user := project_user <$> find (fun u => bool_decide (u_id u = r_user r)) us;
     pr_meta := r_meta r |}.

Definition populate (us : list user) (e : event)
  : event_of (list populated_registration) :=
  with_registrations e (populate_registration us <$> e_registrations e).

Module Event.

(** [Event.find().sort({ date: -1 })] *)
Definition find_sort_date (d : db) : outcome (list event) * db :=
  (Resolved (merge_sort date_desc (events d)), d).

(** [Event.countDocuments({ _id: id })] *)
Definition countDocuments_id (id : string) (d : db) : outcome nat * db :=
  (Resolved (length (filter (fun e => e_id e = id) (events d))), d).

(** [Event.countDocuments()] *)
Definition countDocuments (d : db) : outcome nat * db :=
  (Resolved (length (events d)), d).

(** [Event.countDocuments({ date: { $gt: t } })] *)
Definition countDocuments_date_gt (t : option Z) (d : db) : outcome nat * db :=
  (Resolved (length (filter (fun e => date_gt (e_date e) t = true) (events d))), d).

(** [event.save()] on a new document: an insert, which the unique index
    on [_id] refuses when the id is taken. *)
Definition save (e : event) (d : db) : outcome event * db :=
  if bool_decide (e_id e ∈ e_id <$> events d)
  then (Rejected "E11000 duplicate key error", d)
  else (Resolved e, {| events := events d ++ [e]; users := users d |}).

(** [Event.findByIdAndUpdate(id, update, { new: true })] *)
Definition findByIdAndUpdate (id : string) (update : event -> event) (d : db)
  : outcome (option event) * db :=
  let '(r, es) := update_first (fun e => bool_decide (e_id e = id)) update (events d) in
  (Resolved r, {| events := es; users := users d |}).

(** [Event.findByIdAndDelete(id)] *)
Definition findByIdAndDelete (id : string) (d : db)
  : outcome (option event) * db :=
  let '(r, es) := delete_first (fun e => bool_decide (e_id e = id)) (events d) in
  (Resolved r, {| events := es; users := users d |}).

(** [Event.find().populate(...).sort({ date: -1 })] *)
Definition find_populate_sort_date (d : db)
  : outcome (list (event_of (list populated_registration))) * db :=
  (Resolved (merge_sort date_desc (populate (users d) <$> events d)), d).

(** [Event.findById(id).populate(...)] *)
Definition findById_populate (id : string) (d : db)
  : outcome (option (event_of (list populated_registration))) * db :=
  (Resolved (populate (users d) <$>
             find (fun e => bool_decide (e_id e = id)) (events d)), d).

End Event.

Module User.

(** [User.countDocuments(query)] *)
Definition countDocuments (q : query) (d : db) : outcome nat * db :=
  match select_matching q (users d) with
  | Some us => (Resolved (length us), d)
  | None => (Unmodelled, d)
  end.

(** [User.find(query).select('-password').sort({ createdAt: -1 })
      .skip(s).limit(l)] *)
Definition find_select_sort_skip_limit (q : query) (s l : num) (d : db)
  : outcome (list user) * db :=
  match select_matching q (users d) with
  | Some us =>
      let sorted := merge_sort createdAt_desc us in
      match Query.skip s sorted with
      | Resolved rest =>
          match Query.limit l rest with
          | Resolved page => (Resolved (select_minus_password <$> page), d)
          | Rejected err => (Rejected err, d)
          | Unmodelled => (Unmodelled, d)
          end
      | Rejected err => (Rejected err, d)
      | Unmodelled => (Unmodelled, d)
      end
  | None => (Unmodelled, d)
  end.

(** [User.findByIdAndUpdate(id, { role }, { new: true, runValidators: true })
      .select('-password')] *)
Definition findByIdAndUpdate_role (id role : string) (d : db)
  : outcome (option user) * db :=
  let '(r, us) := update_first (fun u => bool_decide (u_id u = id)) (set_role role) (users d) in
  (Resolved (select_minus_password <$> r), {| events := events d; users := us |}).

End User.

(** ** Responses *)

(** The JSON bodies the handlers send. *)
Inductive body : Type :=
  | JMessage (message : string)
      (** [{ message }] *)
  | JEvents (items : list (event_of nat))
      (** an array of events, each with a numeric [registrations] *)
  | JEvent (e : event)
      (** an event document *)
  | JUsers (users : list user) (total : nat) (page totalPages : option Z)
      (** [{ users, total, page, totalPages }]; [None] is [null] *)
  | JFailure (message : string)
      (** [{ success: false, message }] *)
  | JError (message error : string)
      (** [{ success: false, message, error }] *)
  | JUser (data : user)
      (** [{ success: true, data }] *)
  | JStats (totalMembers totalEvents upcomingEvents : nat)
      (** [{ totalMembers, totalEvents, upcomingEvents }] *)
  | JAllEvents (count : nat) (data : list event_all)
      (** [{ success: true, count, data }] *)
  | JRegistrations (count : nat) (data : list populated_registration)
      (** [{ success: true, count, data }] *).

Record response : Type := {
  status : nat;
  json : body;
}.

(** [res.status(code).json(b)]; [res.json(b)] sends 200. *)
Definition send (code : nat) (b : body) : M response :=
  ret {| status := code; json := b |}.

(** ** The handlers *)

(** Modelled from the spec: the Event schema, [models/Event.js], is not
    among the sources.  The cast of the [date] path on a write: the path is
    a date (section 3), so the value is kept as the instant [new Date]
    makes of it, and [null] or a missing value as no date. *)
Definition cast_date (parse : string -> option Z) (v : jsval) : option Z :=
  match v with
  | VUndefined | VNull => None
  | _ => new_Date parse v
  end.

(** Modelled from the spec: the Event schema, [models/Event.js], is not
    among the sources.  [new Event({ title, description, date, time, venue,
    status })]: [registrations] is an array path (section 3), which
    Mongoose starts off as the empty array. *)
Definition new_Event (parse : string -> option Z) (id : string)
    (title description date time venue : jsval) (status : string) : event :=
  {| e_id := id; e_title := title; e_description := description;
     e_date := cast_date parse date; e_time := time; e_venue := venue;
     e_status := status; e_registrations := [] |}.

(** One property of an update object: an [undefined] one is dropped or
    written as [null], as this Mongoose has it. *)
Definition assign (omit : bool) (new old : jsval) : jsval :=
  match new with
  | VUndefined => if omit then old else VNull
  | _ => new
  end.

(** [{ title, description, date, time, venue, status }] applied as an
    update. *)
Definition apply_update (omit : bool) (parse : string -> option Z)
    (title description date time venue : jsval) (status : string)
    (e : event) : event :=
  {| e_id := e_id e;
     e_title := assign omit title (e_title e);
     e_description := assign omit description (e_description e);
     e_date := match date with
               | VUndefined => if omit then e_date e else None
               | _ => cast_date parse date
               end;
     e_time := assign omit time (e_time e);
     e_venue := assign omit venue (e_venue e);
     e_status := status;
     e_registrations := e_registrations e |}.

(** [new Date(date) > new Date() ? 'upcoming' : 'past'] *)
Definition derive_status (date : jsval) : M string :=
  let* parse := ask Date_parse in
  let* current := now in
  ret (if date_gt (new_Date parse date) current then "upcoming" else "past").

(** The callback of [events.map] in [GET /events]:
    [async (event) => { ...; return { ...event.toObject(), registrations } }] *)
Definition count_registrations (event : event) : M (event_of nat) :=
  let* registrations := await (Event.countDocuments_id (e_id event)) in
  ret (with_registrations event registrations).

(** [router.get('/events', ...)] *)
Definition get_events : M response :=
  try_catch
    (let* events := await Event.find_sort_date in
     let* eventsWithRegistrations :=
       Promise_all (count_registrations <$> events) in
     send 200 (JEvents eventsWithRegistrations))
    (fun error => send 500 (JMessage "Server error")).

(** [router.post('/events', ...)] *)
Definition post_events (title description date time venue : jsval) : M response :=
  try_catch
    (let* parse := ask Date_parse in
     let* status := derive_status date in
     let* id := new_ObjectId in
     let event := new_Event parse id title description date time venue status in
     let* event := await (Event.save event) in
     send 201 (JEvent event))
    (fun error => send 500 (JMessage "Server error")).

(** [router.put('/events/:id', ...)] *)
Definition put_events (id : string) (title description date time venue : jsval)
  : M response :=
  try_catch
    (let* parse := ask Date_parse in
     let* omit := ask omitUndefined in
     let* status := derive_status date in
     let* event :=
       await (Event.findByIdAndUpdate id
                (apply_update omit parse title description date time venue status)) in
     match event with
     | None => send 404 (JMessage "Event not found")
     | Some event => send 200 (JEvent event)
     end)
    (fun error => send 500 (JMessage "Server error")).

(** [router.delete('/events/:id', ...)] *)
Definition delete_events (id : string) : M response :=
  try_catch
    (let* event := await (Event.findByIdAndDelete id) in
     match event with
     | None => send 404 (JMessage "Event not found")
     | Some _ => send 200 (JMessage "Event deleted successfully")
     end)
    (fun error => send 500 (JMessage "Server error")).

(** [const { page = fallback } = req.query]: the string of the query, or
    the default number where the parameter is absent. *)
Definition effective (fallback : Z) (param : option string) : jsval :=
  default (VNum fallback) (VStr <$> param).

(** The filter [GET /users] builds: [{}], and with a search string
    [{ $or: [{ name: ... }, { email: ... }, { registration_no: ... }] }]. *)
Definition users_query (search : option string) : query :=
  if truthy_str search then
    let s := default "" search in
    {| q_or := Some [ {| c_path := P_name; c_regex := s; c_options := "i" |};
                      {| c_path := P_email; c_regex := s; c_options := "i" |};
                      {| c_path := P_registration_no; c_regex := s; c_options := "i" |} ] |}
  else {| q_or := None |}.

(** [router.get('/users', ...)]; the three arguments are [req.query.search],
    [req.query.page] and [req.query.limit], strings where present. *)
Definition get_users (search page limit : option string) : M response :=
  try_catch
    (let page := effective 1 page in
     let limit := effective 10 limit in
     let query := users_query search in
     let* total := await (User.countDocuments query) in
     let* page_number := known (ToNumber page) in
     let* limit_number := known (ToNumber limit) in
     let* limit_int := known (parseInt limit) in
     let* users :=
       await (User.find_select_sort_skip_limit query
                (num_mul (num_sub page_number (Int 1)) limit_number) limit_int) in
     let* page_int := known (parseInt page) in
     send 200 (JUsers users total (json_number page_int)
                 (json_number (num_ceil_div (Int (Z.of_nat total)) limit_number))))
    (fun error => send 500 (JMessage "Server error")).

Definition ROLES : list string := ["user"; "admin"; "superadmin"].

(** [ROLES.includes(v)]: only a string can equal one of the three. *)
Definition includes (l : list string) (v : jsval) : bool :=
  match v with
  | VStr s => bool_decide (s ∈ l)
  | _ => false
  end.

(** [router.put('/users/:id/role', ...)] *)
Definition put_users_role (id : string) (role : jsval) : M response :=
  try_catch
    (if negb (includes ROLES role) then
       send 400 (JFailure "Invalid role specified")
     else
       let* user := await (User.findByIdAndUpdate_role id (ToString role)) in
       match user with
       | None => send 404 (JFailure "User not found")
       | Some user => send 200 (JUser user)
       end)
    (fun err => send 500 (JError "Error updating user role" err)).

(** [router.get('/stats', ...)] *)
Definition get_stats : M response :=
  try_catch
    (let* totalMembers := await (User.countDocuments {| q_or := None |}) in
     let* current := now in
     let* upcomingEvents := await (Event.countDocuments_date_gt current) in
     let* totalEvents := await Event.countDocuments in
     send 200 (JStats totalMembers totalEvents upcomingEvents))
    (fun error => send 500 (JMessage "Server error")).

(** [router.get('/events/all', ...)] *)
Definition get_events_all : M response :=
  try_catch
    (let* events := await Event.find_populate_sort_date in
     let transformedEvents :=
       (fun event =>
          {| ea_event := event;
             ea_registrationCount :=
               if truthy_array (e_registrations event)
               then length (e_registrations event) else 0%nat |}) <$> events in
     send 200 (JAllEvents (length events) transformedEvents))
    (fun err => send 500 (JError "Error fetching events" err)).

(** [router.get('/events/:id/registrations', ...)] *)
Definition get_events_registrations (id : string) : M response :=
  try_catch
    (let* event := await (Event.findById_populate id) in
     match event with
     | None => send 404 (JFailure "Event not found")
     | Some event =>
         send 200 (JRegistrations (length (e_registrations event))
                     (e_registrations event))
     end)
    (fun err => send 500 (JError "Error fetching event registrations" err)).

(** ** What the handlers are measured against *)

(** The events [GET /events] finds. *)
Definition found_events (w : world) : list event :=
  merge_sort date_desc (events (store (arrive w))).

(** The answers of the count sub-queries, in the order of the events. *)
Definition counted (w : world) (found : list event) : list (event_of nat) :=
  imap (fun i e =>
          with_registrations e
            (length (filter (fun e' => e_id e' = e_id e) (events (seen w i)))))
       found.



(** No two events share an id, and no two users. *)
Definition unique_ids (d : db) : Prop :=
  NoDup (e_id <$> events d) /\ NoDup (u_id <$> users d).



(** ** Sample data *)

Definition alice : user :=
  {| u_id := "u1"; u_name := "Test User"; u_email := "alice@x.com";
     u_registration_no := "REG001"; u_role := "user";
     u_password := Some "$2a$10$hash1"; u_branch := "CSE"; u_semester := "3";
     u_mobile := "9000000001"; u_createdAt := 100 |}.

Definition bob : user :=
  {| u_id := "u2"; u_name := "Bob"; u_email := "test@x.com";
     u_registration_no := "REG002"; u_role := "admin";
     u_password := Some "$2a$10$hash2"; u_branch := "ECE"; u_semester := "5";
     u_mobile := "9000000002"; u_createdAt := 300 |}.

Definition carol : user :=
  {| u_id := "u3"; u_name := "Carol"; u_email := "carol@x.com";
     u_registration_no := "TEST123"; u_role := "user";
     u_password := Some "$2a$10$hash3"; u_branch := "ME"; u_semester := "1";
     u_mobile := "9000000003"; u_createdAt := 200 |}.

Definition workshop : event :=
  {| e_id := "e1"; e_title := VStr "Workshop"; e_description := VStr "Hands on";
     e_date := Some 5000; e_time := VStr "10:00"; e_venue := VStr "Lab 1";
     e_status := "upcoming";
     e_registrations := [ {| r_user := "u1"; r_meta := VNull |};
                          {| r_user := "u9"; r_meta := VNull |} ] |}.

Definition seminar : event :=
  {| e_id := "e2"; e_title := VStr "Seminar"; e_description := VStr "Talk";
     e_date := Some 9000; e_time := VStr "14:00"; e_venue := VStr "Hall";
     e_status := "upcoming"; e_registrations := [] |}.

Definition sample_db : db :=
  {| events := [workshop; seminar]; users := [alice; bob; carol] |}.

(** A stand-in for [Date.parse] that reads a string of digits as
    milliseconds and nothing else. *)
Definition parse_millis (s : string) : option Z :=
  match all_digits 10 (list_ascii_of_string s) with
  | Some v => Some v
  | None => None
  end.

(** A world at time 7000 with nothing scheduled. *)
Definition sample_world : world :=
  {| store := sample_db; clock := 7000; pending := [];
     oids := fun n => "oid" +:+ pretty n; oid_next := 0;
     Date_parse := parse_millis; omitUndefined := true |}.

Definition with_pending (ts : list tick) (w : world) : world :=
  {| store := store w; clock := clock w; pending := ts; oids := oids w;
     oid_next := oid_next w; Date_parse := Date_parse w;
     omitUndefined := omitUndefined w |}.





(** A tick on which nothing happens but the passing of a millisecond. *)
Definition quiet : tick := {| fault := None; other := fun d => d; elapsed := 1 |}.

(** A tick on which the call fails. *)
Definition failing : tick :=
  {| fault := Some "connection lost"; other := fun d => d; elapsed := 1 |}.

(** A tick before which another request deletes event [id]. *)
Definition deleting (id : string) : tick :=
  {| fault := None;
     other := fun d => {| events := filter (fun e => e_id e <> id) (events d);
                          users := users d |};
     elapsed := 1 |}.

(** * Properties *)

(** ** The runtime's conversions on a few inputs *)

Example ToNumber_examples :
  ToNumber_str "3" = Some (Int 3) /\ ToNumber_str " 10 " = Some (Int 10) /\
  ToNumber_str "" = Some (Int 0) /\ ToNumber_str "10abc" = Some NaN /\
  ToNumber_str "0x1F" = Some (Int 31) /\ ToNumber_str "-7" = Some (Int (-7)) /\
  ToNumber_str "2.5" = None /\ ToNumber_str "-Infinity" = Some (Inf true).
Proof. vm_compute. repeat split. Qed.

Example parseInt_examples :
  parseInt_str "3" = Some (Int 3) /\ parseInt_str "10abc" = Some (Int 10) /\
  parseInt_str "" = Some NaN /\ parseInt_str "  -0x1f" = Some (Int (-31)) /\
  parseInt_str "2.5" = Some (Int 2) /\ parseInt (VNum 1) = Some (Int 1) /\
  parseInt (VNum 10) = Some (Int 10).
Proof. vm_compute. repeat split. Qed.

Example regex_examples :
  regex_test "test" "i" "Test User" = Some true /\
  regex_test "test" "i" "test@x.com" = Some true /\
  regex_test "test" "i" "TEST123" = Some true /\
  regex_test "test" "i" "Tes t" = Some false /\
  regex_test "a.c" "i" "xxABCxx" = Some true /\
  regex_test "a\.c" "i" "xxABCxx" = Some false /\
  regex_test "(" "i" "abc" = None.
Proof. vm_compute. repeat split. Qed.

(** ** Awaited calls *)

Lemma set_store_same (w : world) : set_store (store w) w = w.
Proof. by destruct w. Qed.

Lemma await_fault {A : Type} (op : db -> outcome A * db) (w : world) (err : string) :
  next_fault w = Some err -> await op w = (Rejected err, arrive w).
Proof. intros H. unfold await. by rewrite H. Qed.

Lemma await_lands {A : Type} (op : db -> outcome A * db) (w : world) :
  next_fault w = None ->
  await op w = ((op (store (arrive w))).1, set_store (op (store (arrive w))).2 (arrive w)).
Proof. intros H. unfold await. rewrite H. by destruct (op _). Qed.

(** A call that only reads leaves the world as it found it. *)
Lemma await_read {A : Type} (f : db -> A) (w : world) :
  next_fault w = None ->
  await (fun d => (Resolved (f d), d)) w = (Resolved (f (store (arrive w))), arrive w).
Proof. intros H. rewrite await_lands by done. simpl. by rewrite set_store_same. Qed.

Lemma seen_0 (w : world) : seen w 0 = store (arrive w).
Proof. done. Qed.

Lemma seen_S (w : world) (k : nat) : seen w (S k) = seen (arrive w) k.
Proof. done. Qed.

Lemma fault_at_0 (w : world) : fault_at w 0 = next_fault w.
Proof. done. Qed.

Lemma fault_at_S (w : world) (k : nat) : fault_at w (S k) = fault_at (arrive w) k.
Proof. done. Qed.

Lemma arrive_calm (w : world) : pending w = [] -> arrive w = w.
Proof. intros H. unfold arrive. by rewrite H. Qed.

Lemma next_fault_calm (w : world) : pending w = [] -> next_fault w = None.
Proof. intros H. unfold next_fault. by rewrite H. Qed.

(** ** First match in a collection *)

Section first_match.
Context {A : Type} (P : A -> bool).



Lemma update_first_none (f : A -> A) (l : list A) :
  Forall (fun x => P x = false) l -> update_first P f l = (None, l).
Proof.
  induction 1 as [|x l Hx _ IH]; simpl; [done|].
  by rewrite Hx, IH.
Qed.

Lemma update_first_some (f : A -> A) (l : list A) :
  Exists (fun x => P x = true) l ->
  exists l1 x l2,
    l = l1 ++ x :: l2 /\ P x = true /\ Forall (fun y => P y = false) l1 /\
    update_first P f l = (Some (f x), l1 ++ f x :: l2).
Proof.
  induction l as [|y l IH]; intros HE; [by apply Exists_nil in HE|].
  simpl. destruct (P y) eqn:Hy.
  - exists [], y, l. by repeat split.
  - apply Exists_cons in HE as [HE|HE]; [congruence|].
    destruct (IH HE) as (l1 & x & l2 & -> & Hx & Hl1 & ->).
    exists (y :: l1), x, l2. repeat split; auto.
Qed.
End first_match.

Lemma no_id_Forall {A : Type} (key : A -> string) (id : string) (l : list A) :
  id ∉ key <$> l -> Forall (fun x => bool_decide (key x = id) = false) l.
Proof.
  intros Hn. apply Forall_forall. intros x Hx.
  apply bool_decide_eq_false. intros <-. apply Hn.
  apply list_elem_of_fmap. eauto.
Qed.

Lemma some_id_Exists {A : Type} (key : A -> string) (id : string) (l : list A) :
  id ∈ key <$> l -> Exists (fun x => bool_decide (key x = id) = true) l.
Proof.
  intros (x & -> & Hx)%list_elem_of_fmap. apply Exists_exists.
  exists x. split; [done|]. by apply bool_decide_eq_true.
Qed.

Lemma Forall_no_id {A : Type} (key : A -> string) (id : string) (l : list A) :
  Forall (fun x => bool_decide (key x = id) = false) l -> id ∉ key <$> l.
Proof.
  intros HF (x & -> & Hx)%list_elem_of_fmap.
  rewrite Forall_forall in HF. specialize (HF x Hx).
  by apply bool_decide_eq_false in HF.
Qed.

(** ** DELETE /events/:id *)



(** ** PUT /users/:id/role *)

Lemma includes_ROLES (role : jsval) :
  includes ROLES role = true <-> role ∈ VStr <$> ROLES.
Proof.
  unfold includes. split.
  - destruct role; try done. intros H%bool_decide_eq_true.
    apply list_elem_of_fmap. eauto.
  - intros (r & -> & Hr)%list_elem_of_fmap. by apply bool_decide_eq_true.
Qed.



(** ** GET /events *)

(** [Event.countDocuments({ _id: id })], awaited. *)
Lemma await_count (id : string) (w : world) :
  next_fault w = None ->
  await (Event.countDocuments_id id) w
    = (Resolved (length (filter (fun e => e_id e = id) (events (store (arrive w))))),
       arrive w).
Proof. exact (await_read _ w). Qed.

Lemma await_find_sort_date (w : world) :
  next_fault w = None ->
  await Event.find_sort_date w
    = (Resolved (merge_sort date_desc (events (store (arrive w)))), arrive w).
Proof. exact (await_read _ w). Qed.

(** The number of documents with a given key is 0 or 1 where keys are
    unique, and 1 exactly when a document has the key. *)
Lemma count_unique_key {A : Type} (key : A -> string) (id : string) (l : list A) :
  NoDup (key <$> l) ->
  length (filter (fun x => key x = id) l)
    = if bool_decide (id ∈ key <$> l) then 1%nat else 0%nat.
Proof.
  induction l as [|x l IH]; intros Hnd; [done|].
  rewrite fmap_cons in Hnd. apply NoDup_cons in Hnd as [Hx Hnd].
  rewrite filter_cons, fmap_cons. destruct (decide (key x = id)) as [<-|Hne].
  - simpl. rewrite IH by done.
    rewrite (bool_decide_eq_false_2 _ Hx).
    by rewrite bool_decide_eq_true_2 by left.
  - rewrite IH by done.
    rewrite (bool_decide_ext (id ∈ key x :: (key <$> l)) (id ∈ key <$> l)); [done|].
    rewrite elem_of_cons. intuition congruence.
Qed.

Lemma Promise_all_counts (found : list event) (w : world) :
  (forall k, (k < length found)%nat -> fault_at w k = None) ->
  Promise_all (count_registrations <$> found) w
    = (Resolved (counted w found), arrive_n (length found) w).
Proof.
  revert w. induction found as [|e found IH]; intros w Hf; [done|].
  rewrite fmap_cons. cbn [Promise_all]. unfold bind at 1.
  unfold count_registrations at 1. unfold bind at 1.
  rewrite await_count by (apply (Hf 0%nat); simpl; lia).
  unfold ret at 1. unfold bind at 1.
  rewrite (IH (arrive w)).
  - reflexivity.
  - intros k Hk. apply (Hf (S k)). simpl. lia.
Qed.

Lemma Promise_all_rejects (found : list event) (w : world) (k : nat) :
  (k < length found)%nat -> is_Some (fault_at w k) ->
  exists err w', Promise_all (count_registrations <$> found) w = (Rejected err, w').
Proof.
  revert w k. induction found as [|e found IH]; intros w k Hk Hs; [simpl in Hk; lia|].
  rewrite fmap_cons. cbn [Promise_all]. unfold bind at 1.
  unfold count_registrations at 1. unfold bind at 1.
  destruct (next_fault w) as [err|] eqn:Hn.
  - rewrite (await_fault _ _ _ Hn). eauto.
  - rewrite await_count by done. unfold ret at 1. unfold bind at 1.
    destruct k as [|k]; [rewrite fault_at_0, Hn in Hs; by destruct Hs|].
    destruct (IH (arrive w) k) as (err & w' & ->); [simpl in Hk; lia|done|].
    eauto.
Qed.

Lemma get_events_resolves (w : world) :
  (forall k, (k <= length (found_events w))%nat -> fault_at w k = None) ->
  get_events w
    = (Resolved {| status := 200;
                   json := JEvents (counted (arrive w) (found_events w)) |},
       arrive_n (S (length (found_events w))) w).
Proof.
  intros Hf. unfold get_events, try_catch, bind.
  rewrite await_find_sort_date by (apply (Hf 0%nat); lia).
  fold (found_events w).
  rewrite Promise_all_counts; [done|].
  intros k Hk. rewrite <- fault_at_S. apply Hf. lia.
Qed.

Lemma get_events_rejects (w : world) (k : nat) :
  (k <= length (found_events w))%nat -> is_Some (fault_at w k) ->
  (get_events w).1 = Resolved {| status := 500; json := JMessage "Server error" |}.
Proof.
  intros Hk Hs. unfold get_events, try_catch, bind.
  destruct (next_fault w) as [err|] eqn:Hn.
  - by rewrite (await_fault _ _ _ Hn).
  - rewrite await_find_sort_date by done.
    fold (found_events w).
    destruct k as [|k]; [rewrite fault_at_0, Hn in Hs; by destruct Hs|].
    destruct (Promise_all_rejects (found_events w) (arrive w) k) as (err & w' & ->);
      [lia|done|done].
Qed.

(** Up to any bound, either no call is scheduled to fail or one is. *)
Lemma faults_dec (w : world) (n : nat) :
  (forall k, (k <= n)%nat -> fault_at w k = None) \/
  (exists k, (k <= n)%nat /\ is_Some (fault_at w k)).
Proof.
  induction n as [|n [IH|(k & Hk & Hs)]].
  - destruct (fault_at w 0) eqn:H0.
    + right. exists 0%nat. rewrite H0. eauto.
    + left. intros k Hk. by replace k with 0%nat by lia.
  - destruct (fault_at w (S n)) eqn:HS.
    + right. exists (S n). rewrite HS. eauto.
    + left. intros k Hk. destruct (decide (k = S n)) as [->|]; [done|].
      apply IH. lia.
  - right. exists k. split; [lia|done].
Qed.

Lemma arrive_n_calm (k : nat) (w : world) : pending w = [] -> arrive_n k w = w.
Proof.
  intros H. induction k as [|k IH]; [done|].
  simpl. by rewrite (arrive_calm w H).
Qed.

Lemma counted_lookup (w : world) (found : list event) (i : nat) (item : event_of nat) :
  counted w found !! i = Some item ->
  exists e, found !! i = Some e /\
    item = with_registrations e
             (length (filter (fun e' => e_id e' = e_id e) (events (seen w i)))).
Proof.
  unfold counted. rewrite list_lookup_imap.
  destruct (found !! i) as [e|]; [|done].
  intros [= <-]. eauto.
Qed.

Lemma get_events_items_resolved (w : world) (items : list (event_of nat)) :
  (get_events w).1 = Resolved {| status := 200; json := JEvents items |} ->
  forall k, (k <= length (found_events w))%nat -> fault_at w k = None.
Proof.
  intros Hr.
  destruct (faults_dec w (length (found_events w))) as [Hf|(k & Hk & Hs)]; [done|].
  rewrite (get_events_rejects w k Hk Hs) in Hr. discriminate.
Qed.

(** C8.  Call 0 of the handler is the [find]; calls 1 to n are the count
    sub-queries, one per event found, in order.  If none of these calls
    fails, the answer is 200 with one item per event found, in the same
    order.  If any one of them fails, the answer is 500 with
    [{ message: 'Server error' }], which carries no item at all.  And an
    answer that carries items is only given when every one of the calls
    resolved. *)
Theorem get_events_all_or_nothing (w : world) :
  let n := length (found_events w) in
  ((forall k, (k <= n)%nat -> fault_at w k = None) ->
     exists items,
       (get_events w).1 = Resolved {| status := 200; json := JEvents items |} /\
       length items = n /\
       forall i, e_id <$> items !! i = e_id <$> found_events w !! i) /\
  ((exists k, (k <= n)%nat /\ is_Some (fault_at w k)) ->
     (get_events w).1
       = Resolved {| status := 500; json := JMessage "Server error" |}) /\
  (forall items,
     (get_events w).1 = Resolved {| status := 200; json := JEvents items |} ->
     forall k, (k <= n)%nat -> fault_at w k = None).
Proof.
  simpl. split; [|split].
  - intros Hf. rewrite (get_events_resolves w Hf). eexists. split; [done|].
    unfold counted. split; [apply length_imap|].
    intros i. rewrite list_lookup_imap. by destruct (found_events w !! i).
  - intros (k & Hk & Hs). by apply (get_events_rejects w k).
  - apply get_events_items_resolved.
Qed.

Lemma get_events_all_or_nothing_witness :
  (exists items,
     (get_events (with_pending [quiet; quiet; quiet] sample_world)).1
       = Resolved {| status := 200; json := JEvents items |} /\
     length items = 2%nat) /\
  (get_events (with_pending [quiet; quiet; failing] sample_world)).1
    = Resolved {| status := 500; json := JMessage "Server error" |} /\
  fault_at (with_pending [quiet; deleting "e2"; quiet] sample_world) 2 = None.
Proof.
  split; [|split].
  - destruct (get_events_all_or_nothing (with_pending [quiet; quiet; quiet] sample_world))
      as [H _].
    destruct H as (items & Hr & Hl & _).
    + intros [|[|[|k]]] Hk; try reflexivity. vm_compute in Hk. lia.
    + exists items. split; [exact Hr|exact Hl].
  - destruct (get_events_all_or_nothing (with_pending [quiet; quiet; failing] sample_world))
      as (_ & H & _).
    apply H. exists 2%nat. split; [vm_compute; lia|]. vm_compute. eauto.
  - destruct (get_events_all_or_nothing
                (with_pending [quiet; deleting "e2"; quiet] sample_world))
      as (_ & _ & H).
    apply (H _ eq_refl). vm_compute. lia.
Defined.

(** C1.  Where ids are unique in the events collection, the [registrations]
    of every item [GET /events] returns is the number of documents of the
    events collection, as the item's count sub-query finds it, that carry
    the item's own id.  That number is 0 or 1: 1 when an event with the id
    is in the collection at that moment, 0 when it is gone.  The event's
    own registrations array plays no part in it. *)
Theorem get_events_registrations_zero_or_one
    (w : world) (items : list (event_of nat)) :
  (forall k, NoDup (e_id <$> events (seen w k))) ->
  (get_events w).1 = Resolved {| status := 200; json := JEvents items |} ->
  forall i item, items !! i = Some item ->
    let collection := events (seen w (S i)) in
    e_registrations item
      = length (filter (fun e => e_id e = e_id item) collection) /\
    (e_registrations item = 0 \/ e_registrations item = 1)%nat /\
    (e_id item ∈ e_id <$> collection -> e_registrations item = 1%nat) /\
    (e_id item ∉ e_id <$> collection -> e_registrations item = 0%nat).
Proof.
  intros Hu Hr i item Hi. simpl.
  assert (Hf : forall k, (k <= length (found_events w))%nat -> fault_at w k = None).
  { by eapply get_events_items_resolved. }
  rewrite (get_events_resolves w Hf) in Hr. injection Hr as <-.
  apply counted_lookup in Hi as (e & _ & ->). simpl.
  rewrite seen_S. rewrite <- (seen_S w i).
  rewrite (count_unique_key e_id) by apply Hu.
  split; [done|]. case_bool_decide; naive_solver.
Qed.

Lemma get_events_registrations_zero_or_one_witness :
  let w := with_pending [quiet; deleting "e2"; quiet] sample_world in
  exists gone kept,
    (get_events w).1 = Resolved {| status := 200; json := JEvents [gone; kept] |} /\
    e_id gone = "e2" /\ e_registrations gone = 0%nat /\
    e_id kept = "e1" /\ e_registrations kept = 1%nat /\
    length (e_registrations workshop) = 2%nat.
Proof.
  intros w.
  exists (with_registrations seminar 0%nat), (with_registrations workshop 1%nat).
  assert (Hu : forall k, NoDup (e_id <$> events (seen w k))).
  { intros [|[|[|k]]]; try (apply (bool_decide_unpack _); reflexivity).
    unfold seen. cbn [arrive_n].
    rewrite arrive_n_calm by reflexivity.
    apply (bool_decide_unpack _). reflexivity. }
  assert (Hr : (get_events w).1
            = Resolved {| status := 200;
                          json := JEvents [with_registrations seminar 0%nat;
                                           with_registrations workshop 1%nat] |})
    by reflexivity.
  pose proof (get_events_registrations_zero_or_one w _ Hu Hr 0%nat _ eq_refl)
    as (_ & _ & _ & H0).
  pose proof (get_events_registrations_zero_or_one w _ Hu Hr 1%nat _ eq_refl)
    as (_ & _ & H1 & _).
  split; [exact Hr|]. split; [reflexivity|]. split.
  { apply H0. apply (bool_decide_unpack _). reflexivity. }
  split; [reflexivity|]. split; [|reflexivity].
  apply H1. apply (bool_decide_unpack _). reflexivity.
Defined.

(** ** POST /events and PUT /events/:id *)

Lemma date_gt_now (a : option Z) (c : Z) :
  date_gt a (Some c) = true <-> exists t, a = Some t /\ c < t.
Proof.
  destruct a as [t|]; simpl.
  - rewrite Z.ltb_lt. split; [eauto|]. by intros (? & [= <-] & ?).
  - split; [done|]. by intros (? & ? & ?).
Qed.


Lemma next_fault_bump (w : world) : next_fault (bump_oid w) = next_fault w.
Proof. done. Qed.

Lemma store_arrive_bump (w : world) : store (arrive (bump_oid w)) = store (arrive w).
Proof. unfold arrive. simpl. by destruct (pending w). Qed.

Lemma elem_of_merge_sort {A : Type} (R : relation A)
    `{forall x y, Decision (R x y)} (x : A) (l : list A) :
  x ∈ merge_sort R l <-> x ∈ l.
Proof. by rewrite merge_sort_Permutation. Qed.

Lemma length_merge_sort {A : Type} (R : relation A)
    `{forall x y, Decision (R x y)} (l : list A) :
  length (merge_sort R l) = length l.
Proof. apply Permutation_length, merge_sort_Permutation. Qed.

Lemma await_find_populate_sort_date (w : world) :
  next_fault w = None ->
  await Event.find_populate_sort_date w
    = (Resolved (merge_sort date_desc
                   (populate (users (store (arrive w))) <$> events (store (arrive w)))),
       arrive w).
Proof. exact (await_read _ w). Qed.

(** What [GET /events/all] answers. *)
Lemma get_events_all_cases (w : world) :
  match next_fault w with
  | Some err =>
      (get_events_all w).1
        = Resolved {| status := 500; json := JError "Error fetching events" err |}
  | None =>
      let found := merge_sort date_desc
                     (populate (users (store (arrive w))) <$> events (store (arrive w))) in
      get_events_all w
        = (Resolved {| status := 200;
                       json :=
                         JAllEvents (length found)
                           ((fun e =>
                               {| ea_event := e;
                                  ea_registrationCount := length (e_registrations e) |})
                              <$> found) |},
           arrive w)
  end.
Proof.
  unfold get_events_all, try_catch, bind.
  destruct (next_fault w) as [err|] eqn:Hn.
  - by rewrite (await_fault _ _ _ Hn).
  - by rewrite await_find_populate_sort_date.
Qed.



(** ** GET /events/all and GET /events/:id/registrations *)

Lemma await_findById_populate (id : string) (w : world) :
  next_fault w = None ->
  await (Event.findById_populate id) w
    = (Resolved (populate (users (store (arrive w))) <$>
                 find (fun e => bool_decide (e_id e = id)) (events (store (arrive w)))),
       arrive w).
Proof. exact (await_read _ w). Qed.

Lemma find_some_id (id : string) (l : list event) :
  id ∈ e_id <$> l -> is_Some (find (fun e => bool_decide (e_id e = id)) l).
Proof.
  induction l as [|e l IH]; [by intros ?%elem_of_nil|].
  rewrite fmap_cons, elem_of_cons. simpl. case_bool_decide as He; [eauto|].
  intros [->|Hin]; [done|auto].
Qed.

(** C10.  An answer of [GET /events/all] that carries data has for [count]
    the length of [data], which is the number of events in the collection
    and owes nothing to their registrations; an answer of
    [GET /events/:id/registrations] that carries data has for [count] the
    length of [data].  Both answers are given: the first whenever the store
    call resolves, the second when it resolves and an event has the id. *)
Theorem count_is_length_of_data (w : world) (id : string) :
  (forall n data,
     (get_events_all w).1 = Resolved {| status := 200; json := JAllEvents n data |} ->
     n = length data /\ n = length (events (store (arrive w)))) /\
  (forall n data,
     (get_events_registrations id w).1
       = Resolved {| status := 200; json := JRegistrations n data |} ->
     n = length data) /\
  (next_fault w = None ->
     exists data,
       (get_events_all w).1
         = Resolved {| status := 200; json := JAllEvents (length data) data |}) /\
  (next_fault w = None -> id ∈ e_id <$> events (store (arrive w)) ->
     exists data,
       (get_events_registrations id w).1
         = Resolved {| status := 200; json := JRegistrations (length data) data |}).
Proof.
  pose proof (get_events_all_cases w) as Hc.
  split; [|split; [|split]].
  - intros n data Hr.
    destruct (next_fault w); [rewrite Hc in Hr; discriminate|].
    simpl in Hc. rewrite Hc in Hr. injection Hr as <- <-.
    rewrite length_fmap, length_merge_sort, length_fmap. done.
  - intros n data. unfold get_events_registrations, try_catch, bind.
    destruct (next_fault w) as [err|] eqn:Hn.
    + by rewrite (await_fault _ _ _ Hn).
    + rewrite await_findById_populate by done.
      destruct (find _ _); simpl; [|done]. by intros [= <- <-].
  - intros Hn. rewrite Hn in Hc. simpl in Hc. rewrite Hc. cbn [fst].
    match goal with |- context [JAllEvents _ ?d] => exists d end.
    by rewrite length_fmap.
  - intros Hn Hid. unfold get_events_registrations, try_catch, bind.
    rewrite await_findById_populate by done.
    destruct (find_some_id id _ Hid) as [e ->]. simpl. eauto.
Qed.

Lemma count_is_length_of_data_witness :
  (exists data,
     (get_events_all sample_world).1
       = Resolved {| status := 200; json := JAllEvents 2 data |} /\
     length data = 2%nat) /\
  (exists data,
     (get_events_registrations "e1" sample_world).1
       = Resolved {| status := 200; json := JRegistrations 2 data |} /\
     length data = 2%nat) /\
  (exists data,
     (get_events_all sample_world).1
       = Resolved {| status := 200; json := JAllEvents (length data) data |}) /\
  (exists data,
     (get_events_registrations "e2" sample_world).1
       = Resolved {| status := 200; json := JRegistrations (length data) data |}).
Proof.
  destruct (count_is_length_of_data sample_world "e1") as (Hall & Hregs & Hgiven & _).
  destruct (count_is_length_of_data sample_world "e2") as (_ & _ & _ & Hgiven2).
  split; [|split; [|split]].
  - eexists. split; [reflexivity|]. symmetry. eapply Hall. reflexivity.
  - eexists. split; [reflexivity|]. symmetry. eapply Hregs. reflexivity.
  - apply Hgiven. reflexivity.
  - apply Hgiven2; [reflexivity|]. apply (bool_decide_unpack _). reflexivity.
Defined.

(** ** POST /events, then GET /events/all *)

Lemma post_events_calm (w : world) (title description date time venue : jsval) :
  pending w = [] ->
  oids w (oid_next w) ∉ e_id <$> events (store w) ->
  let status := if date_gt (new_Date (Date_parse w) date) (Some (clock w))
                then "upcoming" else "past" in
  let e := new_Event (Date_parse w) (oids w (oid_next w))
             title description date time venue status in
  post_events title description date time venue w
    = (Resolved {| status := 201; json := JEvent e |},
       set_store {| events := events (store w) ++ [e]; users := users (store w) |}
         (bump_oid w)).
Proof.
  intros Hcalm Hfresh. simpl.
  unfold post_events, try_catch, bind, ask, derive_status, bind, ask, now, ret,
    new_ObjectId.
  rewrite await_lands by (rewrite next_fault_bump; by apply next_fault_calm).
  rewrite (arrive_calm (bump_oid w)) by done.
  unfold Event.save. cbn [e_id new_Event store bump_oid].
  by rewrite (bool_decide_eq_false_2 _ Hfresh).
Qed.

(** C6.  With nothing scheduled in between and a free generated id:
    [POST /events] answers 201 with the event it inserted, and
    [GET /events/all] right after it answers 200 with an item for that
    event; every item with the event's id is the event as it was created,
    with [registrations] the empty array and [registrationCount] 0. *)
Theorem create_then_fetch_all
    (w : world) (title description date time venue : jsval) :
  pending w = [] ->
  oids w (oid_next w) ∉ e_id <$> events (store w) ->
  let created := post_events title description date time venue w in
  exists e n data,
    created.1 = Resolved {| status := 201; json := JEvent e |} /\
    e_registrations e = [] /\
    (get_events_all created.2).1
      = Resolved {| status := 200; json := JAllEvents n data |} /\
    (exists item, item ∈ data /\ e_id (ea_event item) = e_id e) /\
    (forall item, item ∈ data -> e_id (ea_event item) = e_id e ->
       ea_event item = with_registrations e [] /\
       e_registrations (ea_event item) = [] /\
       ea_registrationCount item = 0%nat).
Proof.
  intros Hcalm Hfresh. simpl.
  rewrite (post_events_calm w title description date time venue Hcalm Hfresh).
  cbn [fst snd].
  set (e := new_Event _ _ _ _ _ _ _ _).
  set (w1 := set_store _ _).
  assert (Hcalm1 : pending w1 = []) by done.
  pose proof (get_events_all_cases w1) as Hc.
  rewrite (next_fault_calm w1 Hcalm1) in Hc. simpl in Hc.
  rewrite (arrive_calm w1 Hcalm1) in Hc.
  exists e. eexists _, _. split; [done|]. split; [done|]. split; [by rewrite Hc|].
  assert (Hpop : forall us, populate us e = with_registrations e []) by done.
  split.
  - eexists {| ea_event := with_registrations e []; ea_registrationCount := 0 |}.
    split; [|done].
    apply list_elem_of_fmap. exists (with_registrations e []). split; [done|].
    apply elem_of_merge_sort, list_elem_of_fmap. exists e. split; [done|].
    simpl. apply elem_of_app. right. by apply list_elem_of_singleton.
  - intros item (pe & -> & Hpe)%list_elem_of_fmap Hid. simpl in *.
    apply elem_of_merge_sort in Hpe.
    apply list_elem_of_fmap in Hpe as (e' & -> & [He'|He']%elem_of_app).
    + exfalso. apply Hfresh. apply list_elem_of_fmap. exists e'. by split.
    + apply list_elem_of_singleton in He' as ->. by rewrite Hpop.
Qed.

Lemma create_then_fetch_all_witness :
  exists e n data,
    (post_events (VStr "Quiz") (VStr "Fun") (VStr "9999") (VStr "9:00") (VStr "Hall")
       sample_world).1 = Resolved {| status := 201; json := JEvent e |} /\
    (get_events_all
       (post_events (VStr "Quiz") (VStr "Fun") (VStr "9999") (VStr "9:00") (VStr "Hall")
          sample_world).2).1
      = Resolved {| status := 200; json := JAllEvents n data |} /\
    exists item, item ∈ data /\ e_id (ea_event item) = e_id e /\
      e_registrations (ea_event item) = [] /\ ea_registrationCount item = 0%nat.
Proof.
  destruct (create_then_fetch_all sample_world (VStr "Quiz") (VStr "Fun")
              (VStr "9999") (VStr "9:00") (VStr "Hall"))
    as (e & n & data & Hpost & _ & Hget & (item & Hin & Hid) & Hall).
  - reflexivity.
  - apply (bool_decide_unpack _). reflexivity.
  - exists e, n, data. split; [exact Hpost|]. split; [exact Hget|].
    exists item. destruct (Hall item Hin Hid) as (_ & Hregs & Hcount). done.
Defined.

(** ** GET /users *)

Lemma select_matching_filter (q : query) (us m : list user) :
  select_matching q us = Some m ->
  m = filter (fun u => matches q u = Some true) us.
Proof.
  revert m. induction us as [|u us IH]; intros m; simpl; [by intros [= <-]|].
  destruct (matches q u) as [b|] eqn:Hb; [|done].
  destruct (select_matching q us) as [rest|]; [|done].
  intros [= <-]. rewrite filter_cons, (IH rest eq_refl).
  destruct b; [by rewrite decide_True by done|].
  by rewrite decide_False by (rewrite Hb; congruence).
Qed.



(** Conversely, a listing that arrives was put together that way. *)
Lemma get_users_inv
    (w w' : world) (search page limit : option string)
    (us : list user) (total : nat) (pg tp : option Z) :
  get_users search page limit w
    = (Resolved {| status := 200; json := JUsers us total pg tp |}, w') ->
  exists pn ln li pi m0 m1 rest shown,
    ToNumber (effective 1 page) = Some pn /\
    ToNumber (effective 10 limit) = Some ln /\
    parseInt (effective 10 limit) = Some li /\
    parseInt (effective 1 page) = Some pi /\
    select_matching (users_query search) (users (seen w 0)) = Some m0 /\
    select_matching (users_query search) (users (seen w 1)) = Some m1 /\
    Query.skip (num_mul (num_sub pn (Int 1)) ln) (merge_sort createdAt_desc m1) = Resolved rest /\
    Query.limit li rest = Resolved shown /\
    us = select_minus_password <$> shown /\ total = length m0 /\
    pg = json_number pi /\
    tp = json_number (num_ceil_div (Int (Z.of_nat total)) ln).
Proof.
  unfold get_users, try_catch, bind, known, await.
  destruct (next_fault w); [by intros [=]|].
  unfold User.countDocuments.
  destruct (select_matching _ (users (store (arrive w)))) as [m0|] eqn:Hm0;
    [|by intros [=]].
  cbn [fst snd]. rewrite set_store_same.
  destruct (ToNumber (effective 1 page)) as [pn|]; [|by intros [=]].
  destruct (ToNumber (effective 10 limit)) as [ln|]; [|by intros [=]].
  destruct (parseInt (effective 10 limit)) as [li|]; [|by intros [=]].
  destruct (next_fault (arrive w)); [by intros [=]|].
  unfold User.find_select_sort_skip_limit.
  destruct (select_matching _ (users (store (arrive (arrive w))))) as [m1|] eqn:Hm1;
    [|by intros [=]].
  destruct (Query.skip _ _) as [rest| |] eqn:Hskip; [|by intros [=]..].
  destruct (Query.limit li rest) as [shown| |] eqn:Hlimit; [|by intros [=]..].
  cbn [fst snd].
  destruct (parseInt (effective 1 page)) as [pi|]; [|by intros [=]].
  intros [= <- <- <- <- _].
  exists pn, ln, li, pi, m0, m1, rest, shown. by repeat split.
Qed.



(** What [limit] lets through is a prefix. *)
Lemma limit_prefix {A : Type} (n : num) (l shown : list A) :
  Query.limit n l = Resolved shown -> exists k, shown = take k l.
Proof.
  destruct n as [z| |]; simpl; [|done..].
  destruct (0 <? z); [intros [= <-]; eauto|].
  destruct (z =? 0); [|done]. intros [= <-].
  exists (length l). by rewrite take_ge.
Qed.



#[local] Instance createdAt_desc_transitive : Transitive createdAt_desc.
Proof. unfold createdAt_desc. intros x y z ? ?. lia. Qed.

#[local] Instance createdAt_desc_total : Total createdAt_desc.
Proof. unfold createdAt_desc. intros x y. lia. Qed.






(** ** The search of GET /users *)











(** ** GET /stats *)

Lemma select_matching_all (us : list user) :
  select_matching {| q_or := None |} us = Some us.
Proof. induction us as [|u us IH]; [done|]. simpl. by rewrite IH. Qed.

Lemma await_count_users (w : world) :
  next_fault w = None ->
  await (User.countDocuments {| q_or := None |}) w
    = (Resolved (length (users (store (arrive w)))), arrive w).
Proof.
  intros Hf. rewrite await_lands by done. unfold User.countDocuments.
  rewrite select_matching_all. simpl. by rewrite set_store_same.
Qed.

Lemma await_count_upcoming (t : option Z) (w : world) :
  next_fault w = None ->
  await (Event.countDocuments_date_gt t) w
    = (Resolved (length (filter (fun e => date_gt (e_date e) t = true)
                           (events (store (arrive w))))),
       arrive w).
Proof. exact (await_read _ w). Qed.

Lemma await_count_events (w : world) :
  next_fault w = None ->
  await Event.countDocuments w
    = (Resolved (length (events (store (arrive w)))), arrive w).
Proof. exact (await_read _ w). Qed.

(** X1.  When its three counts resolve, [GET /stats] answers 200 with the
    number of users as the first count finds them, the number of events
    as the third count finds them, and for [upcomingEvents] the number of
    events, as the second count finds them, whose date is strictly after
    the clock read when that count is issued: an event dated at that very
    instant, or with no date, is not counted.  The three counts are taken
    one after the other; when no other request writes between the second
    and the third, [upcomingEvents] is at most [totalEvents]. *)
Theorem get_stats_counts (w : world) :
  fault_at w 0 = None -> fault_at w 1 = None -> fault_at w 2 = None ->
  let issued := clock (arrive w) in
  let upcoming :=
    filter (fun e => date_gt (e_date e) (Some issued) = true) (events (seen w 1)) in
  get_stats w
    = (Resolved {| status := 200;
                   json := JStats (length (users (seen w 0)))
                             (length (events (seen w 2))) (length upcoming) |},
       arrive_n 3 w) /\
  (forall e, e ∈ upcoming <->
             e ∈ events (seen w 1) /\ exists t, e_date e = Some t /\ issued < t) /\
  (events (seen w 1) = events (seen w 2) ->
   (length upcoming <= length (events (seen w 2)))%nat).
Proof.
  intros H0 H1 H2. simpl. split; [|split].
  - unfold get_stats, try_catch, bind, now.
    rewrite await_count_users by done.
    rewrite await_count_upcoming by done.
    by rewrite await_count_events by done.
  - intros e. rewrite list_elem_of_filter, date_gt_now. tauto.
  - intros <-. apply length_filter.
Qed.

Lemma get_stats_counts_witness :
  (get_stats (with_pending [quiet; quiet; quiet] sample_world)).1
    = Resolved {| status := 200; json := JStats 3 2 1 |}.
Proof.
  destruct (get_stats_counts (with_pending [quiet; quiet; quiet] sample_world)
              eq_refl eq_refl eq_refl) as (Hr & _ & Hle).
  pose proof (Hle eq_refl) as _.
  rewrite Hr. reflexivity.
Defined.

(** ** The catch clauses *)






(** ** What the writes leave alone *)

Lemma update_first_fmap {A B : Type} (key : A -> B) (P : A -> bool) (f : A -> A)
    (l : list A) :
  (forall x, key (f x) = key x) ->
  key <$> (update_first P f l).2 = key <$> l.
Proof.
  intros Hkey. induction l as [|x l IH]; [done|].
  simpl. destruct (P x).
  - csimpl. by rewrite Hkey.
  - destruct (update_first P f l) as [r l'] eqn:Hu. csimpl in *. by rewrite IH.
Qed.

Lemma delete_first_elem_of {A : Type} (P : A -> bool) (l : list A) (x : A) :
  x ∈ (delete_first P l).2 -> x ∈ l.
Proof.
  induction l as [|y l IH]; [done|].
  simpl. destruct (P y); simpl; [by right|].
  destruct (delete_first P l) as [r l'] eqn:Hd. simpl in *.
  rewrite !elem_of_cons. intuition.
Qed.

Lemma delete_first_NoDup {A B : Type} (key : A -> B) (P : A -> bool) (l : list A) :
  NoDup (key <$> l) -> NoDup (key <$> (delete_first P l).2).
Proof.
  induction l as [|y l IH]; [done|].
  rewrite fmap_cons, NoDup_cons. intros [Hy Hnd].
  simpl. destruct (P y); simpl; [done|].
  pose proof (delete_first_elem_of P l) as Hsub.
  destruct (delete_first P l) as [r l'] eqn:Hd. simpl in *.
  rewrite NoDup_cons. split; [|by apply IH].
  intros (z & Hz & Hin)%list_elem_of_fmap. apply Hy.
  apply list_elem_of_fmap. exists z. split; [done|]. by apply Hsub.
Qed.

(** The store [PUT /events/:id] leaves behind, whatever its answer. *)
Lemma put_events_store
    (w : world) (id : string) (title description date time venue : jsval) :
  store (put_events id title description date time venue w).2 = seen w 0 \/
  exists update,
    (forall e, e_id (update e) = e_id e /\
               e_registrations (update e) = e_registrations e) /\
    store (put_events id title description date time venue w).2
      = {| events := (update_first (fun e => bool_decide (e_id e = id)) update
                        (events (seen w 0))).2;
           users := users (seen w 0) |}.
Proof.
  unfold put_events, try_catch, bind, ask, derive_status, bind, ask, now, ret.
  destruct (next_fault w) as [err|] eqn:Hf.
  - left. by rewrite (await_fault _ _ _ Hf).
  - right. rewrite await_lands by done. unfold Event.findByIdAndUpdate.
    exists (apply_update (omitUndefined w) (Date_parse w)
              title description date time venue
              (if date_gt (new_Date (Date_parse w) date) (Some (clock w))
               then "upcoming" else "past")).
    split; [done|]. rewrite seen_0.
    by destruct (update_first _ _ _) as [[e|] es].
Qed.

(** X4.  [PUT /events/:id] changes no user, adds and removes no event,
    changes the id of none and the registrations of none, whatever the
    request and however the store call ends.  When the call resolves and
    no event has the id, the answer is 404 with
    [{ message: 'Event not found' }] and the store is as the call found
    it. *)
Theorem put_events_frame
    (w : world) (id : string) (title description date time venue : jsval) :
  let d := seen w 0 in
  let r := (put_events id title description date time venue w).1 in
  let d' := store (put_events id title description date time venue w).2 in
  users d' = users d /\
  e_id <$> events d' = e_id <$> events d /\
  e_registrations <$> events d' = e_registrations <$> events d /\
  (next_fault w = None -> id ∉ e_id <$> events d ->
   r = Resolved {| status := 404; json := JMessage "Event not found" |} /\ d' = d).
Proof.
  simpl.
  assert (H404 : next_fault w = None -> id ∉ e_id <$> events (seen w 0) ->
            (put_events id title description date time venue w).1
              = Resolved {| status := 404; json := JMessage "Event not found" |} /\
            store (put_events id title description date time venue w).2 = seen w 0).
  { intros Hf Hn.
    unfold put_events, try_catch, bind, ask, derive_status, bind, ask, now, ret.
    rewrite await_lands by done. unfold Event.findByIdAndUpdate.
    rewrite (update_first_none _ _ _ (no_id_Forall e_id id _ Hn)). simpl.
    split; [done|]. rewrite seen_0. by destruct (store (arrive w)). }
  destruct (put_events_store w id title description date time venue)
    as [Hs|(update & Hkeep & Hs)]; rewrite Hs in *.
  - split; [done|]. split; [done|]. split; [done|]. exact H404.
  - simpl. split; [done|].
    split; [apply update_first_fmap; intros e; apply Hkeep|].
    split; [apply update_first_fmap; intros e; apply Hkeep|].
    exact H404.
Qed.

Lemma put_events_frame_witness :
  (put_events "e9" (VStr "Gala") VNull VNull VNull VNull sample_world).1
    = Resolved {| status := 404; json := JMessage "Event not found" |} /\
  store (put_events "e9" (VStr "Gala") VNull VNull VNull VNull sample_world).2
    = sample_db.
Proof.
  destruct (put_events_frame sample_world "e9" (VStr "Gala") VNull VNull VNull VNull)
    as (_ & _ & _ & H).
  apply H; [reflexivity|]. apply (bool_decide_unpack _). reflexivity.
Defined.

Lemma db_eta (d : db) : {| events := events d; users := users d |} = d.
Proof. by destruct d. Qed.

(** The store [POST /events] leaves behind, whatever its answer. *)
Lemma post_events_store
    (w : world) (title description date time venue : jsval) :
  store (post_events title description date time venue w).2 = seen w 0 \/
  exists e,
    e_id e = oids w (oid_next w) /\ (e_id e ∉ e_id <$> events (seen w 0)) /\
    e_registrations e = [] /\
    store (post_events title description date time venue w).2
      = {| events := events (seen w 0) ++ [e]; users := users (seen w 0) |}.
Proof.
  unfold post_events, try_catch, bind, ask, derive_status, bind, ask, now, ret,
    new_ObjectId.
  destruct (next_fault w) as [err|] eqn:Hf.
  - left. rewrite (await_fault _ (bump_oid w) err) by done. apply store_arrive_bump.
  - rewrite await_lands by done. rewrite store_arrive_bump, <- seen_0.
    unfold Event.save. cbn [e_id new_Event].
    case_bool_decide as Hid; simpl; [by left|].
    right.
    exists (new_Event (Date_parse w) (oids w (oid_next w))
              title description date time venue
              (if date_gt (new_Date (Date_parse w) date) (Some (clock w))
               then "upcoming" else "past")).
    split; [reflexivity|]. split; [exact Hid|]. split; reflexivity.
Qed.

(** The store [DELETE /events/:id] leaves behind, whatever its answer. *)
Lemma delete_events_store (w : world) (id : string) :
  store (delete_events id w).2 = seen w 0 \/
  store (delete_events id w).2
    = {| events := (delete_first (fun e => bool_decide (e_id e = id))
                      (events (seen w 0))).2;
         users := users (seen w 0) |}.
Proof.
  unfold delete_events, try_catch, bind.
  destruct (next_fault w) as [err|] eqn:Hf.
  - left. by rewrite (await_fault _ _ _ Hf).
  - right. rewrite await_lands by done. unfold Event.findByIdAndDelete.
    rewrite seen_0. by destruct (delete_first _ _) as [[e|] es].
Qed.

(** The store [PUT /users/:id/role] leaves behind, whatever its answer. *)
Lemma put_users_role_store (w : world) (id : string) (role : jsval) :
  store (put_users_role id role w).2 = store w \/
  store (put_users_role id role w).2 = seen w 0 \/
  store (put_users_role id role w).2
    = {| events := events (seen w 0);
         users := (update_first (fun u => bool_decide (u_id u = id))
                     (set_role (ToString role)) (users (seen w 0))).2 |}.
Proof.
  unfold put_users_role, try_catch, bind.
  destruct (includes ROLES role); simpl; [|by left].
  destruct (next_fault w) as [err|] eqn:Hf.
  - right. left. by rewrite (await_fault _ _ _ Hf).
  - right. right. rewrite await_lands by done. unfold User.findByIdAndUpdate_role.
    rewrite seen_0. by destruct (update_first _ _ _) as [[u|] us].
Qed.

(** X5.  The four writes keep ids unique.  If no two events and no two
    users share an id, both before the request and in the store as the
    handler's store call finds it, then the same holds of the store each
    of [POST /events], [PUT /events/:id], [DELETE /events/:id] and
    [PUT /users/:id/role] leaves behind, whatever the request and however
    the store call ends. *)
Theorem writes_keep_ids_unique
    (w : world) (id : string) (title description date time venue role : jsval) :
  unique_ids (store w) -> unique_ids (seen w 0) ->
  unique_ids (store (post_events title description date time venue w).2) /\
  unique_ids (store (put_events id title description date time venue w).2) /\
  unique_ids (store (delete_events id w).2) /\
  unique_ids (store (put_users_role id role w).2).
Proof.
  intros Hw [He Hu]. split; [|split; [|split]].
  - destruct (post_events_store w title description date time venue)
      as [->|(e & _ & Hfresh & _ & ->)]; [done|].
    split; [|done]. simpl. rewrite fmap_app. apply NoDup_app.
    split; [done|]. split; [|apply NoDup_singleton].
    intros x Hx [->|[]%elem_of_nil]%elem_of_cons. done.
  - destruct (put_events_store w id title description date time venue)
      as [->|(update & Hkeep & ->)]; [done|].
    split; [|done]. simpl.
    rewrite (update_first_fmap e_id); [done|]. intros e. apply Hkeep.
  - destruct (delete_events_store w id) as [->| ->]; [done|].
    split; [|done]. simpl. by apply delete_first_NoDup.
  - destruct (put_users_role_store w id role) as [->|[->| ->]]; [done..|].
    split; [done|]. simpl. by rewrite (update_first_fmap u_id).
Qed.

Lemma writes_keep_ids_unique_witness :
  unique_ids (store (post_events (VStr "Quiz") VNull (VNum 9000) VNull VNull
                       sample_world).2) /\
  unique_ids (store (delete_events "e1" sample_world).2).
Proof.
  assert (Hu : unique_ids sample_db).
  { split; apply (bool_decide_unpack _); reflexivity. }
  destruct (writes_keep_ids_unique sample_world "e1" (VStr "Quiz") VNull (VNum 9000)
              VNull VNull VNull Hu Hu) as (Hpost & _ & Hdel & _).
  by split.
Defined.

(** ** Writes, one after the other *)

Lemma delete_first_snoc {A : Type} (P : A -> bool) (l : list A) (x : A) :
  Forall (fun y => P y = false) l -> P x = true ->
  delete_first P (l ++ [x]) = (Some x, l).
Proof.
  induction 1 as [|y l Hy _ IH]; intros Hx; simpl.
  - by rewrite Hx.
  - by rewrite Hy, IH.
Qed.

Lemma update_first_again {A : Type} (P : A -> bool) (f : A -> A) (l : list A) :
  (forall x, f (f x) = f x) -> (forall x, P (f x) = P x) ->
  update_first P f (update_first P f l).2 = update_first P f l.
Proof.
  intros Hf HP. induction l as [|x l IH]; [done|].
  simpl. destruct (P x) eqn:Hx.
  - simpl. by rewrite HP, Hx, Hf.
  - destruct (update_first P f l) as [r l'] eqn:Hu. simpl in *.
    by rewrite Hx, IH.
Qed.


(** X6.  With nothing scheduled in between and a free generated id,
    deleting the event [POST /events] has just created, by the id the
    supply handed out, answers 200 with the success message and puts the
    store back as it was before the creation: the same events in the same
    order, the same users. *)
Theorem create_then_delete
    (w : world) (title description date time venue : jsval) :
  pending w = [] ->
  oids w (oid_next w) ∉ e_id <$> events (store w) ->
  let created := post_events title description date time venue w in
  let deleted := delete_events (oids w (oid_next w)) created.2 in
  deleted.1
    = Resolved {| status := 200; json := JMessage "Event deleted successfully" |} /\
  store deleted.2 = store w.
Proof.
  intros Hcalm Hfresh. simpl.
  rewrite (post_events_calm w title description date time venue Hcalm Hfresh).
  cbn [fst snd].
  set (e := new_Event _ _ _ _ _ _ _ _). set (w1 := set_store _ _).
  assert (Hcalm1 : pending w1 = []) by done.
  unfold delete_events, try_catch, bind.
  rewrite await_lands by (by apply next_fault_calm).
  rewrite (arrive_calm w1 Hcalm1). unfold Event.findByIdAndDelete.
  cbn [store w1 set_store events users].
  rewrite (delete_first_snoc _ (events (store w)) e).
  - simpl. split; [done|]. apply db_eta.
  - by apply (no_id_Forall e_id).
  - by apply bool_decide_eq_true.
Qed.

Lemma create_then_delete_witness :
  store (delete_events "oid0"
           (post_events (VStr "Quiz") VNull (VNum 9000) VNull VNull sample_world).2).2
    = sample_db.
Proof.
  destruct (create_then_delete sample_world (VStr "Quiz") VNull (VNum 9000) VNull VNull)
    as [_ Hs]; [reflexivity| |exact Hs].
  apply (bool_decide_unpack _). reflexivity.
Defined.

(** X7.  [PUT /users/:id/role] can be repeated.  With nothing scheduled,
    the same request sent a second time gets the same answer as the first
    and leaves the world exactly as the first left it, whether the role
    was valid or not and whether the user exists or not. *)
Theorem put_users_role_twice (w : world) (id : string) (role : jsval) :
  pending w = [] ->
  let first := put_users_role id role w in
  put_users_role id role first.2 = first.
Proof.
  intros Hcalm. simpl. unfold put_users_role, try_catch, bind.
  destruct (includes ROLES role); simpl; [|done].
  rewrite (await_lands _ w) by (by apply next_fault_calm).
  rewrite (arrive_calm w Hcalm). unfold User.findByIdAndUpdate_role.
  pose proof (update_first_again (fun u => bool_decide (u_id u = id))
                (set_role (ToString role)) (users (store w))
                ltac:(done) ltac:(done)) as Hagain.
  destruct (update_first _ _ (users (store w))) as [r us] eqn:Hu.
  simpl in Hagain.
  assert (Hrun : forall w1 : world,
            pending w1 = [] -> events (store w1) = events (store w) ->
            users (store w1) = us ->
            await (User.findByIdAndUpdate_role id (ToString role)) w1
              = (Resolved (select_minus_password <$> r), w1)).
  { intros w1 Hc1 He1 Hu1. rewrite await_lands by (by apply next_fault_calm).
    rewrite (arrive_calm w1 Hc1). unfold User.findByIdAndUpdate_role.
    rewrite Hu1, Hagain. simpl. rewrite <- Hu1, He1, <- He1, db_eta.
    by rewrite set_store_same. }
  destruct r as [u|]; simpl; by rewrite Hrun.
Qed.

Lemma put_users_role_twice_witness :
  put_users_role "u1" (VStr "admin")
    (put_users_role "u1" (VStr "admin") sample_world).2
  = put_users_role "u1" (VStr "admin") sample_world.
Proof. apply put_users_role_twice. reflexivity. Defined.



(** ** GET /users at the edges *)

Lemma users_query_empty : users_query (Some "") = users_query None.
Proof. done. Qed.


(** X9.  An empty search string is no search.  [GET /users?search=] is
    answered as [GET /users] without the parameter, and in every listing
    either of them gets, [total] is the number of all users in the
    collection as the count finds it, whatever the page and the limit. *)
Theorem get_users_empty_search (w : world) (page limit : option string) :
  get_users (Some "") page limit w = get_users None page limit w /\
  (forall us total pg tp w',
     get_users None page limit w
       = (Resolved {| status := 200; json := JUsers us total pg tp |}, w') ->
     total = length (users (seen w 0))).
Proof.
  split; [done|]. intros us total pg tp w' Hr.
  apply get_users_inv in Hr
    as (pn & ln & li & pi & m0 & m1 & rest & shown
        & _ & _ & _ & _ & Hm0 & _ & _ & _ & _ & -> & _).
  change (users_query None) with {| q_or := None |} in Hm0.
  rewrite select_matching_all in Hm0. by injection Hm0 as <-.
Qed.

Lemma get_users_empty_search_witness :
  exists us pg tp,
    (get_users (Some "") (Some "2") (Some "2") sample_world).1
      = Resolved {| status := 200; json := JUsers us 3 pg tp |}.
Proof.
  destruct (get_users_empty_search sample_world (Some "2") (Some "2")) as [Heq Htotal].
  rewrite Heq. eexists _, _, _. simpl.
  replace 3%nat with (length (users (seen sample_world 0))) by reflexivity.
  erewrite <- (Htotal _ _ _ _ _ eq_refl). reflexivity.
Defined.







(** ** What the listings hold *)

Lemma update_first_some_inv {A : Type} (P : A -> bool) (f : A -> A) (l : list A) (y : A) :
  (update_first P f l).1 = Some y -> exists x, x ∈ l /\ P x = true /\ y = f x.
Proof.
  induction l as [|x l IH]; [done|].
  simpl. destruct (P x) eqn:Hx; simpl.
  - intros [= <-]. exists x. split; [by left|done].
  - destruct (update_first P f l) as [r l'] eqn:Hu. simpl in *.
    intros (x' & Hin & Hp & ->)%IH. exists x'. split; [by right|done].
Qed.

Lemma skip_subseteq {A : Type} (n : num) (l rest : list A) :
  Query.skip n l = Resolved rest -> rest ⊆ l.
Proof.
  destruct n as [z| |]; simpl; [|done..].
  destruct (z <? 0); [done|]. destruct (z <=? MAX_SAFE); [|done].
  intros [= <-]. apply subseteq_drop.
Qed.

Lemma limit_subseteq {A : Type} (n : num) (l shown : list A) :
  Query.limit n l = Resolved shown -> shown ⊆ l.
Proof. intros [k ->]%limit_prefix. apply subseteq_take. Qed.

(** Every listed user is a stored user that passed the filter, less its
    password. *)
Lemma user_routes_listing_origin
    (w w' : world) (search page limit : option string)
    (us : list user) (total : nat) (pg tp : option Z) :
  get_users search page limit w
    = (Resolved {| status := 200; json := JUsers us total pg tp |}, w') ->
  Forall (fun u => exists stored, stored ∈ users (seen w 1) /\
                     u = select_minus_password stored) us.
Proof.
  intros Hr.
  apply get_users_inv in Hr
    as (pn & ln & li & pi & m0 & m1 & rest & shown
        & _ & _ & _ & _ & _ & Hm1 & Hskip & Hlimit & -> & _).
  apply select_matching_filter in Hm1. apply skip_subseteq in Hskip.
  apply limit_subseteq in Hlimit.
  apply Forall_fmap, Forall_forall. intros stored Hin.
  exists stored. split; [|done]. apply Hlimit, Hskip in Hin.
  apply elem_of_merge_sort in Hin. rewrite Hm1 in Hin.
  by apply list_elem_of_filter in Hin as [_ Hin].
Qed.

(** X13.  No password leaves through the user routes.  Every user in
    every listing of [GET /users], whatever the search, page and limit,
    is a user of the collection as the find finds it that passes the
    filter, returned without its password; and the user in every
    [{ success: true, data }] of [PUT /users/:id/role] is the one with the
    id of the request, carrying the role of the request and no password. *)
Theorem user_routes_drop_password
    (w w' : world) (search page limit : option string) (id : string) (role : jsval) :
  (forall us total pg tp,
     get_users search page limit w
       = (Resolved {| status := 200; json := JUsers us total pg tp |}, w') ->
     Forall (fun u => u_password u = None /\
                      exists stored, stored ∈ users (seen w 1) /\
                        matches (users_query search) stored = Some true /\
                        u = select_minus_password stored) us) /\
  (forall data,
     put_users_role id role w
       = (Resolved {| status := 200; json := JUser data |}, w') ->
     u_password data = None /\ u_id data = id /\ VStr (u_role data) = role).
Proof.
  split.
  - intros us total pg tp Hr.
    apply get_users_inv in Hr
      as (pn & ln & li & pi & m0 & m1 & rest & shown
          & _ & _ & _ & _ & _ & Hm1 & Hskip & Hlimit & -> & _).
    apply select_matching_filter in Hm1. apply skip_subseteq in Hskip.
    apply limit_subseteq in Hlimit.
    apply Forall_fmap, Forall_forall. intros stored Hin. split; [done|].
    exists stored. apply Hlimit, Hskip in Hin.
    apply elem_of_merge_sort in Hin. rewrite Hm1 in Hin.
    apply list_elem_of_filter in Hin as [Hm Hin]. done.
  - intros data. unfold put_users_role, try_catch, bind, await.
    destruct (includes ROLES role) eqn:Hrole; simpl; [|by intros [=]].
    destruct (next_fault w); [by intros [=]|].
    unfold User.findByIdAndUpdate_role.
    pose proof (update_first_some_inv (fun u => bool_decide (u_id u = id))
                  (set_role (ToString role)) (users (store (arrive w)))) as Hinv.
    destruct (update_first _ _ _) as [[u|] us]; simpl; [|by intros [=]].
    intros [= <- _]. destruct (Hinv _ eq_refl) as (x & _ & Hx & ->).
    apply bool_decide_eq_true in Hx. split; [done|]. split; [done|]. simpl.
    apply includes_ROLES, list_elem_of_fmap in Hrole as (r & -> & _). done.
Qed.

Lemma user_routes_drop_password_witness :
  Forall (fun u => u_password u = None)
    (select_minus_password <$> [bob; carol; alice]) /\
  u_password (select_minus_password (set_role "admin" alice)) = None.
Proof.
  destruct (user_routes_drop_password sample_world sample_world None None (Some "0")
              "u1" (VStr "admin")) as [Hlist _].
  destruct (user_routes_drop_password sample_world
              (put_users_role "u1" (VStr "admin") sample_world).2
              None None None "u1" (VStr "admin")) as [_ Hrole].
  split.
  - eapply Forall_impl; [apply (Hlist _ 3%nat (Some 1) None); reflexivity|].
    by intros u [Hp _].
  - apply (Hrole _ eq_refl).
Defined.

#[local] Instance date_desc_transitive {R : Type} : Transitive (@date_desc R).
Proof.
  unfold date_desc, instant_le. intros x y z.
  destruct (e_date x), (e_date y), (e_date z); try done. lia.
Qed.

#[local] Instance date_desc_total {R : Type} : Total (@date_desc R).
Proof.
  unfold date_desc, instant_le. intros x y.
  destruct (e_date x), (e_date y); try tauto. lia.
Qed.

Lemma counted_dates (w : world) (found : list event) :
  e_date <$> counted w found = e_date <$> found.
Proof.
  apply list_eq. intros i. unfold counted.
  rewrite !list_lookup_fmap, list_lookup_imap. by destruct (found !! i).
Qed.

(** X14.  Both event listings come newest first.  In the items of a
    [GET /events] that answers with items, and in the [data] of
    [GET /events/all] when its store call resolves, the dates run in
    descending order, events without a date last. *)
Theorem event_listings_newest_first (w : world) :
  (forall items,
     (get_events w).1 = Resolved {| status := 200; json := JEvents items |} ->
     StronglySorted (fun a b => instant_le b a) (e_date <$> items)) /\
  (next_fault w = None ->
   exists n data,
     (get_events_all w).1
       = Resolved {| status := 200; json := JAllEvents n data |} /\
     StronglySorted (fun a b => instant_le b a)
       ((fun item => e_date (ea_event item)) <$> data)).
Proof.
  split.
  - intros items Hr.
    pose proof (get_events_items_resolved w items Hr) as Hf.
    rewrite (get_events_resolves w Hf) in Hr. injection Hr as <-.
    rewrite counted_dates.
    apply (StronglySorted_fmap _ date_desc); [done|].
    apply (StronglySorted_merge_sort date_desc).
  - intros Hf. pose proof (get_events_all_cases w) as Hc.
    rewrite Hf in Hc. simpl in Hc. rewrite Hc. eexists _, _. split; [done|].
    rewrite <- list_fmap_compose.
    apply (StronglySorted_fmap _ date_desc); [done|].
    apply (StronglySorted_merge_sort date_desc).
Qed.

Lemma event_listings_newest_first_witness :
  StronglySorted (fun a b => instant_le b a) [Some 9000; Some 5000].
Proof.
  destruct (event_listings_newest_first sample_world) as [H _].
  apply (H [with_registrations seminar 1%nat; with_registrations workshop 1%nat]).
  reflexivity.
Defined.








(** ** A write without a date *)

(** X17.  A write that supplies no [date] marks the event as past.
    [new Date(undefined)] is an invalid date and compares false, so the
    status written is ['past'] whatever the clock says.  [POST /events]
    then stores an event with no date.  [PUT /events/:id] overwrites the
    status of the event it updates with ['past'] and, where Mongoose
    leaves [undefined] properties out of the update, keeps the date the
    event had, so that an event dated in the future ends up marked past;
    where Mongoose writes them as [null], the date is removed. *)
Theorem write_without_date_is_past
    (w : world) (title description time venue : jsval) :
  next_fault w = None ->
  (oids w (oid_next w) ∉ e_id <$> events (seen w 0) ->
   exists e,
     (post_events title description VUndefined time venue w).1
       = Resolved {| status := 201; json := JEvent e |} /\
     e_status e = "past" /\ e_date e = None) /\
  (forall id, id ∈ e_id <$> events (seen w 0) ->
   exists before old after e,
     events (seen w 0) = before ++ old :: after /\
     e_id old = id /\ (id ∉ e_id <$> before) /\
     (put_events id title description VUndefined time venue w).1
       = Resolved {| status := 200; json := JEvent e |} /\
     events (store (put_events id title description VUndefined time venue w).2)
       = before ++ e :: after /\
     e_status e = "past" /\
     e_date e = if omitUndefined w then e_date old else None).
Proof.
  intros Hf. split.
  - intros Hfresh.
    unfold post_events, try_catch, bind, ask, derive_status, bind, ask, now, ret,
      new_ObjectId.
    rewrite await_lands by done.
    rewrite store_arrive_bump, <- seen_0. unfold Event.save. cbn [e_id new_Event].
    rewrite (bool_decide_eq_false_2 _ Hfresh). simpl. eauto.
  - intros id Hid. apply (some_id_Exists e_id) in Hid.
    apply (update_first_some _
             (apply_update (omitUndefined w) (Date_parse w) title description
                VUndefined time venue "past")) in Hid
      as (l1 & old & l2 & Hl & Hold & Hl1 & Hd).
    unfold put_events, try_catch, bind, ask, derive_status, bind, ask, now, ret.
    rewrite await_lands by done.
    unfold Event.findByIdAndUpdate. rewrite <- seen_0. simpl. rewrite Hd. simpl.
    apply bool_decide_eq_true in Hold.
    exists l1, old, l2. eexists. split; [done|]. split; [done|].
    split; [by apply Forall_no_id|]. split; [reflexivity|].
    split; [reflexivity|]. by split.
Qed.

Lemma write_without_date_is_past_witness :
  exists e,
    (put_events "e2" (VStr "Seminar, moved") VUndefined VUndefined VUndefined
       VUndefined sample_world).1
      = Resolved {| status := 200; json := JEvent e |} /\
    e_status e = "past" /\ e_date e = Some 9000 /\ clock sample_world < 9000.
Proof.
  destruct (write_without_date_is_past sample_world (VStr "Seminar, moved")
              VUndefined VUndefined VUndefined eq_refl) as [_ H].
  destruct (H "e2") as (before & old & after & e & Hl & _ & _ & Hr & _ & Hs & Hd).
  { apply (bool_decide_unpack _). reflexivity. }
  exists e. split; [exact Hr|]. split; [exact Hs|]. split; [|reflexivity].
  assert (He : (put_events "e2" (VStr "Seminar, moved") VUndefined VUndefined
                  VUndefined VUndefined sample_world).1
             = Resolved {| status := 200;
                           json := JEvent {| e_id := "e2";
                                             e_title := VStr "Seminar, moved";
                                             e_description := VStr "Talk";
                                             e_date := Some 9000;
                                             e_time := VStr "14:00";
                                             e_venue := VStr "Hall";
                                             e_status := "past";
                                             e_registrations := [] |} |})
    by reflexivity.
  rewrite He in Hr. by injection Hr as <-.
Defined.

(** ** A role update, then the listing *)

Lemma unique_key_eq {A : Type} (key : A -> string) (l : list A) (x y : A) :
  NoDup (key <$> l) -> x ∈ l -> y ∈ l -> key x = key y -> x = y.
Proof.
  induction l as [|z l IH]; [by intros _ ?%elem_of_nil|].
  rewrite fmap_cons, NoDup_cons. intros [Hz Hnd].
  rewrite !elem_of_cons. intros [->|Hx] [->|Hy] Hk; [done| | |by apply IH].
  - exfalso. apply Hz. rewrite Hk. apply list_elem_of_fmap. eauto.
  - exfalso. apply Hz. rewrite <- Hk. apply list_elem_of_fmap. eauto.
Qed.

(** X18.  A role update shows in the listing.  With nothing scheduled and
    user ids unique, after a [PUT /users/:id/role] that answered 200,
    every user with that id in every listing [GET /users] then gives,
    whatever the search, page and limit, carries the new role. *)
Theorem role_update_then_listing
    (w w' : world) (id : string) (role : jsval) (data : user)
    (search page limit : option string) :
  pending w = [] -> NoDup (u_id <$> users (store w)) ->
  (put_users_role id role w).1 = Resolved {| status := 200; json := JUser data |} ->
  forall us total pg tp,
    get_users search page limit (put_users_role id role w).2
      = (Resolved {| status := 200; json := JUsers us total pg tp |}, w') ->
    Forall (fun u => u_id u = id -> VStr (u_role u) = role /\ u = data) us.
Proof.
  intros Hcalm Hnd. unfold put_users_role, try_catch, bind.
  destruct (includes ROLES role) eqn:Hrole; simpl; [|by intros [=]].
  rewrite await_lands by (by apply next_fault_calm).
  rewrite (arrive_calm w Hcalm). unfold User.findByIdAndUpdate_role.
  pose proof (update_first_some_inv (fun u => bool_decide (u_id u = id))
                (set_role (ToString role)) (users (store w))) as Hinv.
  pose proof (update_first_fmap u_id (fun u => bool_decide (u_id u = id))
                (set_role (ToString role)) (users (store w)) ltac:(done)) as Hids.
  destruct (update_first _ _ (users (store w))) as [[u|] us1] eqn:Hu; simpl;
    [|by intros [=]].
  intros [= <-] us total pg tp Hr. simpl in Hids.
  destruct (Hinv _ eq_refl) as (x & Hx & Hxid & ->).
  apply bool_decide_eq_true in Hxid.
  assert (Hstored : set_role (ToString role) x ∈ us1).
  { destruct (update_first_some (fun u => bool_decide (u_id u = id))
                (set_role (ToString role)) (users (store w)))
      as (l1 & x' & l2 & Hl & Hx' & Hl1 & Hd).
    { apply Exists_exists. exists x. split; [done|]. by apply bool_decide_eq_true. }
    rewrite Hu in Hd.
    assert (Hfx : set_role (ToString role) x = set_role (ToString role) x')
      by congruence.
    apply (f_equal snd) in Hd. simpl in Hd. rewrite Hd, Hfx.
    apply elem_of_app. right. by left. }
  set (w1 := set_store _ _) in Hr.
  assert (Hcalm1 : pending w1 = []) by done.
  pose proof (user_routes_listing_origin w1 w' search page limit us total pg tp Hr)
    as Horigin.
  eapply Forall_impl; [exact Horigin|].
  intros v (stored & Hin & ->) Hid. simpl in Hid.
  unfold seen in Hin. rewrite arrive_n_calm in Hin by done. simpl in Hin.
  assert (stored = set_role (ToString role) x) as ->.
  { apply (unique_key_eq u_id us1); [by rewrite Hids|done|done|].
    by rewrite Hid. }
  split; [|done]. simpl.
  apply includes_ROLES, list_elem_of_fmap in Hrole as (r & -> & _). done.
Qed.

Lemma role_update_then_listing_witness :
  Forall (fun u => u_id u = "u1" -> VStr (u_role u) = VStr "admin" /\
                   u = select_minus_password (set_role "admin" alice))
    (select_minus_password <$> [bob; carol; set_role "admin" alice]).
Proof.
  apply (role_update_then_listing sample_world
           (put_users_role "u1" (VStr "admin") sample_world).2
           "u1" (VStr "admin") (select_minus_password (set_role "admin" alice))
           None None None eq_refl
           ltac:(apply (bool_decide_unpack _); reflexivity) eq_refl
           _ 3%nat (Some 1) (Some 1)).
  reflexivity.
Defined.

(** ** The reads *)





(** ** One page after the other *)

Lemma seen_calm (k : nat) (w : world) : pending w = [] -> seen w k = store w.
Proof. intros H. unfold seen. by rewrite arrive_n_calm. Qed.

Lemma fault_at_calm (k : nat) (w : world) : pending w = [] -> fault_at w k = None.
Proof.
  intros H. unfold fault_at. rewrite arrive_n_calm by done.
  by apply next_fault_calm.
Qed.



(** ** The case of the search string *)





(** ** The dashboard against the lists *)

(** X22.  With nothing scheduled, the numbers of [GET /stats] are the
    numbers the lists show: [totalMembers] is the [total] of every
    unfiltered listing of [GET /users], [totalEvents] is the [count] of
    [GET /events/all] and the number of items of [GET /events], and
    [upcomingEvents] is at most [totalEvents]. *)
Theorem stats_agree_with_lists (w : world) (page limit : option string) :
  pending w = [] ->
  exists totalMembers totalEvents upcomingEvents data items,
    (get_stats w).1
      = Resolved {| status := 200;
                    json := JStats totalMembers totalEvents upcomingEvents |} /\
    (get_events_all w).1
      = Resolved {| status := 200; json := JAllEvents totalEvents data |} /\
    (get_events w).1 = Resolved {| status := 200; json := JEvents items |} /\
    length items = totalEvents /\
    (upcomingEvents <= totalEvents)%nat /\
    (forall us total pg tp w',
       get_users None page limit w
         = (Resolved {| status := 200; json := JUsers us total pg tp |}, w') ->
       total = totalMembers).
Proof.
  intros Hcalm.
  pose proof (fun k => fault_at_calm k w Hcalm) as Hf.
  exists (length (users (store w))), (length (events (store w))),
    (length (filter (fun e => date_gt (e_date e) (Some (clock w)) = true)
               (events (store w)))).
  eexists _, _. split; [|split; [|split; [|split; [|split]]]].
  - unfold get_stats, try_catch, bind, now.
    rewrite await_count_users by apply (Hf 0%nat).
    rewrite await_count_upcoming by apply (Hf 1%nat).
    rewrite await_count_events by apply (Hf 2%nat).
    by rewrite !(arrive_calm w Hcalm).
  - pose proof (get_events_all_cases w) as Hc.
    rewrite (next_fault_calm w Hcalm) in Hc. simpl in Hc. rewrite Hc. cbn [fst].
    by rewrite length_merge_sort, length_fmap, (arrive_calm w Hcalm).
  - by rewrite (get_events_resolves w (fun k _ => Hf k)).
  - unfold counted, found_events.
    by rewrite length_imap, length_merge_sort, (arrive_calm w Hcalm).
  - apply length_filter.
  - intros us total pg tp w' Hr.
    apply get_users_inv in Hr
      as (pn & ln & li & pi & m0 & m1 & rest & shown
          & _ & _ & _ & _ & Hm0 & _ & _ & _ & _ & -> & _).
    change (users_query None) with {| q_or := None |} in Hm0.
    rewrite select_matching_all, seen_calm in Hm0 by done. by injection Hm0 as <-.
Qed.

Lemma stats_agree_with_lists_witness :
  exists data items,
    (get_stats sample_world).1 = Resolved {| status := 200; json := JStats 3 2 1 |} /\
    (get_events_all sample_world).1
      = Resolved {| status := 200; json := JAllEvents 2 data |} /\
    (get_events sample_world).1 = Resolved {| status := 200; json := JEvents items |} /\
    length items = 2%nat.
Proof.
  destruct (stats_agree_with_lists sample_world None None eq_refl)
    as (m & t & u & data & items & Hs & Ha & He & Hl & _ & _).
  assert (Hc : (get_stats sample_world).1
             = Resolved {| status := 200; json := JStats 3 2 1 |}) by reflexivity.
  rewrite Hc in Hs. injection Hs as <- <- <-.
  exists data, items. by repeat split.
Defined.
